(** * renpy/display/text.py: text tags, tokenizing, line breaking

    A shallow embedding of the text module of Ren'Py as shipped with the
    Katawa Shoujo HD patch, followed by the properties established about it.

    Conventions of the embedding.
    - A Python [unicode] string is a list of code points ([list N]); [U]
      turns an ASCII literal into such a string.
    - Python integers are [Z]; [/] on integers is floor division ([Z.div]),
      and raises [ZeroDivisionError] where the divisor can be zero.
    - A raised exception is the [Raise] case of [result]; statements are
      sequenced with the monadic bind of [result].
    - Python lists grow at their end: [l.append x] is [l ++ [x]], [l.pop()]
      is [removelast l], [l[-1]] is [last l].
    - Loops that the source writes with [while] and no syntactic bound are
      given a fuel argument; running out of fuel is [None].
    - What text.py takes from outside is a parameter: the font backend
      ([f_size]), [renpy.config.rtl] and [log2vis], the builtin [int], the
      style tables.  The config hooks [text_tokenizer] and [text_layout]
      are the functions of these names in text.py.
    - Tokens and triples carry text; a displayable as the payload of a
      ["widget"] token and the East Asian grammar of the tokenizer are not
      part of the embedding. *)

From Stdlib Require Import ZArith Lia String Ascii.
From stdpp Require Import gmap list.

Open Scope Z_scope.

(** ** Python values *)

Abbreviation ustring := (list N).

Definition U (s : string) : ustring :=
  N_of_ascii <$> list_ascii_of_string s.

Inductive exn : Type :=
| Exception (msg : ustring)
| IndexError
| ValueError
| AttributeError
| ZeroDivisionError.

Inductive result (A : Type) : Type :=
| Ok (a : A)
| Raise (e : exn).
Arguments Ok {A} a.
Arguments Raise {A} e.

#[global] Instance result_ret : MRet result := @Ok.
#[global] Instance result_bind : MBind result := fun A B f m =>
  match m with
  | Ok a => f a
  | Raise e => Raise e
  end.

(** [s.startswith(p)] *)
Fixpoint startswith (s p : ustring) : bool :=
  match p, s with
  | [], _ => true
  | _ :: _, [] => false
  | a :: p', b :: s' => (a =? b)%N && startswith s' p'
  end.

(** [s == t] on strings *)
Definition str_eqb (s t : ustring) : bool := bool_decide (s = t).

(** The longest prefix of [s] whose characters satisfy [p], and the rest. *)
Fixpoint span (p : N → bool) (s : ustring) : ustring * ustring :=
  match s with
  | [] => ([], [])
  | c :: s' =>
      if p c then let '(a, b) := span p s' in (c :: a, b) else ([], s)
  end.

(** [sep.join(l)] *)
Fixpoint join (sep : ustring) (l : list ustring) : ustring :=
  match l with
  | [] => []
  | [x] => x
  | x :: l' => x ++ sep ++ join sep l'
  end.

(** ** Character classes *)

(** The characters the source names. *)
Definition c_space : N := 32.
Definition c_zwsp : N := 8203.   (* U+200B, the zero-width space *)
Definition c_lbrace : N := 123.
Definition c_rbrace : N := 125.
Definition c_newline : N := 10.
Definition c_slash : N := 47.
Definition c_equals : N := 61.
Definition c_hash : N := 35.
Definition c_plus : N := 43.
Definition c_minus : N := 45.

Definition is_digit (c : N) : bool := (48 <=? c)%N && (c <=? 57)%N.

Definition is_hexdigit (c : N) : bool :=
  is_digit c
  || ((97 <=? c)%N && (c <=? 102)%N)
  || ((65 <=? c)%N && (c <=? 70)%N).

(** The value of one hexadecimal digit. *)
Definition hexval (c : N) : Z :=
  if is_digit c then Z.of_N c - 48
  else if (97 <=? c)%N && (c <=? 102)%N then Z.of_N c - 87
  else Z.of_N c - 55.

(** The number written by a string of digits in base [base]. *)
Definition digits_value (base : Z) (ds : ustring) : Z :=
  fold_left (fun acc d => base * acc + hexval d) ds 0.

(** The builtin [int(s, base)] restricted to what text.py feeds it: a
    non-empty string of digits of the base gives its value; anything else is
    reported as [ValueError].  The embedding of text.py takes [int] as a
    parameter; this function is the instance used to run it. *)
Definition int_digits (s : ustring) (base : Z) : result Z :=
  match s with
  | [] => Raise ValueError
  | _ =>
      if forallb (fun c => is_hexdigit c && (hexval c <? base)) s
      then Ok (digits_value base s)
      else Raise ValueError
  end.

(** ** [color] (text.py, lines 53-91) *)

Definition rgba : Type := Z * Z * Z * Z.

Section Color.
(** The builtin [int(s, base)]. *)
Variable int_ : ustring → Z → result Z.

Definition color (s : ustring) : result rgba :=
  match s with
  | [] => Raise IndexError
  | c0 :: rest =>
      let s := if (c0 =? c_hash)%N then rest else s in
      match s with
      | [r1; r2; g1; g2; b1; b2] =>
          r ← int_ [r1; r2] 16;
          g ← int_ [g1; g2] 16;
          b ← int_ [b1; b2] 16;
          Ok (r, g, b, 255)
      | [r1; r2; g1; g2; b1; b2; a1; a2] =>
          r ← int_ [r1; r2] 16;
          g ← int_ [g1; g2] 16;
          b ← int_ [b1; b2] 16;
          a ← int_ [a1; a2] 16;
          Ok (r, g, b, a)
      | [r1; g1; b1] =>
          r ← int_ [r1] 16;
          g ← int_ [g1] 16;
          b ← int_ [b1] 16;
          Ok (r * 17, g * 17, b * 17, 255)
      | [r1; g1; b1; a1] =>
          r ← int_ [r1] 16;
          g ← int_ [g1] 16;
          b ← int_ [b1] 16;
          a ← int_ [a1] 16;
          Ok (r * 17, g * 17, b * 17, a * 17)
      | _ =>
          Raise (Exception
            (U "Argument to color() must be 3, 4, 6, or 8 hex digits long."))
      end
  end.
End Color.

(** ** [TextStyle] (text.py, lines 93-190) *)

(** A [TextStyle] object.  [oid] is the identity of the Python object (what
    [is] compares); the other fields are the attributes set by [__init__]. *)
Record TextStyle : Type := mkTextStyle {
  oid : nat;
  font : ustring;
  size : Z;
  bold : bool;
  italic : bool;
  underline : bool;
  strikethrough : bool;
  ts_color : option rgba;
  black_color : option rgba;
  hyperlink : option nat
}.

(** [a is b] on styles *)
Definition is_ (a b : TextStyle) : bool := Nat.eqb (oid a) (oid b).

(** A Python object used as a key or a value of [wcache]: a text or a
    width. *)
Inductive pyobj : Type :=
| PStr (s : ustring)
| PInt (z : Z).

#[global] Instance pyobj_eq_dec : EqDecision pyobj.
Proof. solve_decision. Defined.

#[global] Instance pyobj_countable : Countable pyobj.
Proof.
  refine (inj_countable'
    (fun o => match o with PStr s => inl s | PInt z => inr z end)
    (fun x => match x with inl s => PStr s | inr z => PInt z end) _).
  intros []; reflexivity.
Defined.

(** The mutable part of a [TextStyle] that [get_width] touches: its
    [wcache] dictionary, and the log of the texts handed to the font
    backend ([self.f.size]). *)
Record ts_state : Type := mkTsState {
  wcache : gmap pyobj pyobj;
  backend_log : list ustring
}.

(** The state [__init__] leaves: [self.wcache = { }]. *)
Definition ts_init : ts_state := mkTsState ∅ [].

Section Measure.
(** The font backend: [f_size ts text] is [ts.f.size(text)[0]], with
    [ts.f] the font [update] selected from the fields of [ts]. *)
Variable f_size : TextStyle → ustring → Z.

(** [TextStyle.get_width] (lines 131-137), with its effect on the cache
    and on the backend. *)
Definition TextStyle_get_width (ts : TextStyle) (text : ustring)
    (st : ts_state) : pyobj * ts_state :=
  match wcache st !! PStr text with
  | Some rv => (rv, st)
  | None =>
      let rv := f_size ts text in
      (PInt rv,
       mkTsState (<[PInt rv := PStr text]> (wcache st))
                 (backend_log st ++ [text]))
  end.

(** The value of [ts.get_width(text)] as the layout functions use it.
    The cache never answers (lemma [get_width_uncached]), so the value is
    the backend's. *)
Definition get_width (ts : TextStyle) (text : ustring) : Z :=
  f_size ts text.
End Measure.

(** ** Triples and [layout_width] (text.py, lines 363-405) *)

(** The kind of a token or of a triple: one of the strings ["newline"],
    ["start"], ["space"], ["word"] and ["tag"]. *)
Inductive kind : Type := newline | start | space | word | tag.

#[global] Instance kind_eq_dec : EqDecision kind.
Proof. solve_decision. Defined.

Definition kind_eqb (a b : kind) : bool := bool_decide (a = b).

(** A triple [(type, ts, i)] whose third component is text. *)
Definition triple : Type := kind * TextStyle * ustring.

Definition tkind (t : triple) : kind := t.1.1.
Definition tstyle (t : triple) : TextStyle := t.1.2.
Definition ttext (t : triple) : ustring := t.2.

(** [bool(s)] for a string *)
Definition nonempty {A} (l : list A) : bool :=
  match l with [] => false | _ => true end.

Section Layout.
Variable f_size : TextStyle → ustring → Z.
(** [renpy.config.rtl], and the string [log2vis(cur, ON)] returns. *)
Variable rtl : bool.
Variable log2vis : ustring → ustring.

Definition vis (cur : ustring) : ustring :=
  if rtl then log2vis cur else cur.

(** The loop state of [layout_width]: [rv], [curts] ([None] before the
    first triple) and [cur]. *)
Definition lw_state : Type := Z * option TextStyle * ustring.

Definition layout_width_step (justify : bool) (st : lw_state)
    (t : triple) : lw_state :=
  let '(rv, curts, cur) := st in
  let '(type, ts, i) := t in
  match curts with
  | None =>
      (* [ts is not curts]; [cur] is empty here *)
      (rv, Some ts, i)
  | Some c =>
      if negb (is_ ts c) then
        let rv := if nonempty cur then rv + get_width f_size c (vis cur)
                  else rv in
        (rv, Some ts, i)
      else if justify && kind_eqb type space then
        let cur := vis (cur ++ i) in
        (rv + get_width f_size c cur, curts, [])
      else
        (rv, curts, cur ++ i)
  end.

Definition layout_width (triples : list triple) (justify : bool) : Z :=
  let '(rv, curts, cur) :=
    fold_left (layout_width_step justify) triples (0, None, []) in
  match curts with
  | Some c => rv + get_width f_size c (vis cur)
  | None => rv
  end.

(** *** [greedy_text_layout] (text.py, lines 408-475) *)

(** [if l and l[-1][0] == "space": l.pop()] *)
Definition pop_trailing_space (l : list triple) : list triple :=
  match last l with
  | Some t => if kind_eqb (tkind t) space then removelast l else l
  | None => l
  end.

(** [if l and l[0][0] == "space": l.pop(0)] *)
Definition pop_leading_space (l : list triple) : list triple :=
  match l with
  | t :: l' => if kind_eqb (tkind t) space then l' else l
  | [] => l
  end.

(** The loop state of [greedy_text_layout]. *)
Record greedy_state : Type := mkGreedy {
  g_lines : list (list triple);
  g_line : list triple;
  g_lines_last : list bool;
  g_target : Z;
  g_after_newline : bool
}.

Definition greedy_step (width first_indent rest_indent : Z)
    (justify : bool) (st : greedy_state) (t : triple) : greedy_state :=
  match tkind t with
  | newline =>
      mkGreedy (g_lines st ++ [g_line st]) []
               (g_lines_last st ++ [true])
               (width - rest_indent) true
  | space =>
      if negb (nonempty (g_line st)) && negb (g_after_newline st)
      then st
      else mkGreedy (g_lines st) (g_line st ++ [t]) (g_lines_last st)
                    (g_target st) (g_after_newline st)
  | _ =>
      if layout_width (g_line st ++ [t]) justify >? g_target st
      then mkGreedy (g_lines st ++ [g_line st]) [t]
                    (g_lines_last st ++ [false])
                    (width - rest_indent) false
      else mkGreedy (g_lines st) (g_line st ++ [t]) (g_lines_last st)
                    (g_target st) false
  end.

(** [style] is given by the three properties the function reads:
    [style.first_indent], [style.rest_indent] and [style.justify]. *)
Definition greedy_text_layout (triples : list triple) (width : Z)
    (first_indent rest_indent : Z) (justify : bool)
    : list (list triple) * list bool :=
  let st := fold_left (greedy_step width first_indent rest_indent justify)
              triples (mkGreedy [] [] [] (width - first_indent) true) in
  let lines := g_lines st in
  let line := g_line st in
  let lines_last := g_lines_last st ++ [true] in
  (* [lines.append(line)], then [for l in lines[:-1]: ...] *)
  (map pop_trailing_space lines ++ [line], lines_last).

(** *** [subtitle_text_layout_core] (text.py, lines 478-550) *)

Record core_state : Type := mkCore {
  c_lines : list (list triple);
  c_line : list triple;
  c_total : Z;
  c_linesoft : Z;
  c_n : Z
}.

(** [target] is assigned [width] at every place of the source, so it is
    [width] throughout. *)
Definition core_step (width soft : Z) (justify : bool)
    (st : core_state) (t : triple) : core_state :=
  match tkind t with
  | space =>
      if negb (nonempty (c_line st)) then st
      else mkCore (c_lines st) (c_line st ++ [t]) (c_total st)
                  (c_linesoft st) (c_n st)
  | type =>
      let lw := layout_width (c_line st ++ [t]) justify in
      if (lw >? width) || kind_eqb type newline then
        let n := c_n st - 1 in
        let line := if n >? 0 then pop_trailing_space (c_line st)
                    else c_line st in
        let total := if n >? 0 then c_total st - layout_width line justify
                     else c_total st in
        let linesoft := if n >? 0 then total / n else soft in
        mkCore (c_lines st ++ [line])
               (if kind_eqb type newline then [] else [t])
               total linesoft n
      else
        let line := c_line st ++ [t] in
        if lw >? c_linesoft st then
          let n := c_n st - 1 in
          let total := if n >? 0 then c_total st - lw else c_total st in
          let linesoft := if n >? 0 then total / n else soft in
          mkCore (c_lines st ++ [line]) [] total linesoft n
        else
          mkCore (c_lines st) line (c_total st) (c_linesoft st) (c_n st)
  end.

(** Line 486, [linesoft = total / n], raises [ZeroDivisionError] when the
    function is called with [n = 0]; inside the loop the divisions are
    guarded by [n > 0]. *)
Definition subtitle_text_layout_core (triples : list triple)
    (width soft n : Z) (justify : bool) : result (list (list triple)) :=
  let total := soft * n in
  if n =? 0 then Raise ZeroDivisionError
  else
    let linesoft := total / n in
    let st := fold_left (core_step width soft justify) triples
                (mkCore [] [] total linesoft n) in
    let lines := c_lines st ++ [c_line st] in
    Ok (map (fun l => pop_leading_space (pop_trailing_space l)) lines).

(** *** [subtitle_text_layout] (text.py, lines 553-606) *)

(** Lines 562-569: split the triples into paragraphs. *)
Definition split_pars (triples : list triple) : list (list triple) :=
  fold_left
    (fun pars tup =>
       if kind_eqb (tkind tup) newline then pars ++ [[]]
       else match last pars with
            | Some p => removelast pars ++ [p ++ [tup]]
            | None => pars
            end)
    triples [[]].

(** Lines 577-587: a word wider than [width] becomes one word per
    character. *)
Definition explode (width : Z) (justify : bool) (triples : list triple)
    : list triple :=
  flat_map
    (fun x =>
       let triplewidth := layout_width [x] justify in
       if (triplewidth <=? width) || negb (kind_eqb (tkind x) word)
       then [x]
       else map (fun char => (word, tstyle x, [char])) (ttext x))
    triples.

(** Lines 591-593: [i = 1; while sumwidths / i > min(width, softwidth):
    i += 1].  The loop is entered with [i = 1] and [i] only grows, so the
    divisor is never zero. *)
Fixpoint estimate (fuel : nat) (sumwidths bound i : Z) : option Z :=
  match fuel with
  | O => None
  | S fuel' =>
      if sumwidths / i >? bound
      then estimate fuel' sumwidths bound (i + 1)
      else Some i
  end.

(** Lines 595-599: the retry loop.  The result is [None] when the fuel
    runs out, [Some (Raise e)] when the core pass raises [e] (the division
    [sumwidths / i] of the call raises the same exception for the same
    [i]), and [Some (Ok rv)] when the loop is left by its [break]. *)
Fixpoint retry (fuel : nat) (triples : list triple) (width : Z)
    (justify : bool) (sumwidths i : Z)
    : option (result (list (list triple))) :=
  match fuel with
  | O => None
  | S fuel' =>
      match subtitle_text_layout_core triples width (sumwidths / i) i
              justify with
      | Raise e => Some (Raise e)
      | Ok rv =>
          if Z.of_nat (length rv) =? i then Some (Ok rv)
          else retry fuel' triples width justify sumwidths (i + 1)
      end
  end.

(** Lines 589-599: the lines of one paragraph, from the estimate of their
    number and the retry loop. *)
Definition subtitle_fill (fuel : nat) (triples : list triple)
    (width softwidth : Z) (justify : bool)
    : option (result (list (list triple))) :=
  let sumwidths := layout_width triples justify in
  i ← estimate fuel sumwidths (Z.min width softwidth) 1;
  retry fuel triples width justify sumwidths i.

(** Lines 576-604: one paragraph.  [lines] and [lines_last] are the lists
    accumulated so far. *)
Definition subtitle_paragraph (fuel : nat) (width softwidth : Z)
    (justify : bool) (acc : list (list triple) * list bool)
    (triples : list triple)
    : option (result (list (list triple) * list bool)) :=
  let '(lines, lines_last) := acc in
  let triples := explode width justify triples in
  r ← subtitle_fill fuel triples width softwidth justify;
  match r with
  | Raise e => Some (Raise e)
  | Ok rv =>
      let lines := lines ++ rv in
      let lines_last :=
        lines_last ++ replicate (length lines - 1) false ++ [true] in
      Some (Ok (lines, lines_last))
  end.

(** [style] is given by [style.justify] and by [softwidth], the integer
    [style.subtitle_width] (a float [subtitle_width] is first turned into
    the integer [int(softwidth * width)], line 559).  An exception of one
    paragraph ends the loop over the paragraphs. *)
Definition subtitle_text_layout (fuel : nat) (triples : list triple)
    (width softwidth : Z) (justify : bool)
    : option (result (list (list triple) * list bool)) :=
  foldl
    (fun acc par =>
       acc ← acc;
       match acc with
       | Raise e => Some (Raise e)
       | Ok acc => subtitle_paragraph fuel width softwidth justify acc par
       end)
    (Some (Ok ([], []))) (split_pars triples).
End Layout.

(** ** [text_tokenizer] (text.py, lines 253-259 and 292-333) *)

(** The named groups of [western_text_regexp]. *)
Inductive group : Type := g_space | g_tag | g_untag | g_newline | g_word.

(** Each alternative of [western_text_regexp], matched at the start of [s]:
    the text of its group and the input left after the match. *)

(** [(?P<space>[ \u200b])]: a space or a zero-width space *)
Definition match_space (s : ustring) : option (ustring * ustring) :=
  match s with
  | c :: s' =>
      if (c =? c_space)%N || (c =? c_zwsp)%N then Some ([c], s') else None
  | [] => None
  end.

(** [\{(?P<tag>[^{}]+)\}] *)
Definition match_tag (s : ustring) : option (ustring * ustring) :=
  match s with
  | c :: s' =>
      if (c =? c_lbrace)%N then
        let '(name, after) :=
          span (fun c => negb ((c =? c_lbrace)%N || (c =? c_rbrace)%N)) s' in
        match name, after with
        | _ :: _, c' :: rest =>
            if (c' =? c_rbrace)%N then Some (name, rest) else None
        | _, _ => None
        end
      else None
  | [] => None
  end.

(** [(?P<untag>\{\{)] *)
Definition match_untag (s : ustring) : option (ustring * ustring) :=
  match s with
  | c :: c' :: rest =>
      if (c =? c_lbrace)%N && (c' =? c_lbrace)%N
      then Some ([c; c'], rest) else None
  | _ => None
  end.

(** [(?P<newline>\n)] *)
Definition match_newline (s : ustring) : option (ustring * ustring) :=
  match s with
  | c :: s' => if (c =? c_newline)%N then Some ([c], s') else None
  | [] => None
  end.

(** [(?P<word>[^ \n\{]+)] *)
Definition match_word (s : ustring) : option (ustring * ustring) :=
  let '(w, rest) :=
    span (fun c => negb ((c =? c_space)%N || (c =? c_newline)%N
                         || (c =? c_lbrace)%N)) s in
  match w with
  | _ :: _ => Some (w, rest)
  | [] => None
  end.

(** One match of [western_text_regexp] at the start of [s]: the
    alternatives are tried from left to right. *)
Definition western_match (s : ustring) : option (group * ustring * ustring) :=
  match match_space s with
  | Some (t, r) => Some (g_space, t, r)
  | None =>
  match match_tag s with
  | Some (t, r) => Some (g_tag, t, r)
  | None =>
  match match_untag s with
  | Some (t, r) => Some (g_untag, t, r)
  | None =>
  match match_newline s with
  | Some (t, r) => Some (g_newline, t, r)
  | None =>
  match match_word s with
  | Some (t, r) => Some (g_word, t, r)
  | None => None
  end end end end end.

(** [western_text_regexp.finditer(s)]: scan from left to right; after a match
    go on behind it, where nothing matches skip one character.  Every match
    takes at least one character, so [length s] steps are enough. *)
Fixpoint finditer (fuel : nat) (s : ustring) : list (group * ustring) :=
  match fuel with
  | O => []
  | S fuel' =>
      match s with
      | [] => []
      | _ :: s' =>
          match western_match s with
          | Some (g, t, r) => (g, t) :: finditer fuel' r
          | None => finditer fuel' s'
          end
      end
  end.

(** The token a match yields (lines 324-333). *)
Definition token_of_match (m : group * ustring) : kind * ustring :=
  match m with
  | (g_space, t) => (space, t)
  | (g_word, t) => (word, t)
  | (g_tag, t) => (tag, t)
  | (g_untag, _) => (word, [c_lbrace])
  | (g_newline, t) => (newline, t)
  end.

(** [text_tokenizer(s, style)] on its Western branch ([style is None or
    style.language == "western"]). *)
Definition text_tokenizer (s : ustring) : list (kind * ustring) :=
  map token_of_match (finditer (length s) s).

(** ** [check_text_tags] (text.py, lines 33-51 and 1520-1553) *)

Definition text_tags : gmap ustring bool :=
  <[ [] := true ]>
  (list_to_map
     [ (U "image", false); (U "p", false); (U "w", false);
       (U "fast", false); (U "b", true); (U "i", true); (U "u", true);
       (U "a", true); (U "plain", true); (U "font", true);
       (U "color", true); (U "size", true); (U "nw", false);
       (U "s", true); (U "st", true) ]).

(** Lines 1530-1531: [text[:text.find('=')]] when there is an ['='], else
    [text]. *)
Definition strip_args (text : ustring) : ustring :=
  (span (fun c => negb (c =? c_equals)%N) text).1.

(** ['a', 'b', ...] as the last message lists the stack. *)
Definition quote (i : ustring) : ustring := U "'" ++ i ++ U "'".

(** The loop of lines 1525-1548 over the tokens, then lines 1550-1553. *)
Fixpoint check_tokens (tokens : list (kind * ustring))
    (tag_stack : list ustring) : option ustring :=
  match tokens with
  | [] =>
      if nonempty tag_stack then
        Some (U "One or more text tags were left open at the end of the string: "
              ++ join (U ", ") (map quote tag_stack))
      else None
  | (type, text) :: tokens' =>
      if negb (kind_eqb type tag) then check_tokens tokens' tag_stack
      else
        let text := strip_args text in
        if match text with c :: _ => (c =? c_slash)%N | [] => false end then
          match last tag_stack with
          | None =>
              Some (U "Close text tag '" ++ text
                    ++ U "' does not match an open text tag.")
          | Some top =>
              if negb (str_eqb top (drop 1 text)) then
                Some (U "Close text tag '" ++ text
                      ++ U "' does not match open text tag '" ++ top
                      ++ U "'.")
              else check_tokens tokens' (removelast tag_stack)
          end
        else
          match (text_tags !! text : option bool) with
          | None => Some (U "Text tag '" ++ text ++ U "' is not known.")
          | Some requires_close =>
              check_tokens tokens'
                (if requires_close then tag_stack ++ [text] else tag_stack)
          end
  end.

(** [renpy.config.text_tokenizer] is [text_tokenizer]. *)
Definition check_text_tags (s : ustring) : option ustring :=
  check_tokens (text_tokenizer s) [].

(** ** The tag pass of [Text.layout] (text.py, lines 930-1151) *)

(** The style properties read from a [renpy] style object. *)
Record style_props : Type := mkProps {
  p_font : ustring;
  p_size : Z;
  p_bold : bool;
  p_italic : bool;
  p_underline : bool;
  p_strikethrough : bool;
  p_color : option rgba;
  p_black_color : option rgba
}.

(** The prefixes [Text.layout] sets on a hyperlink style. *)
Inductive prefix : Type := activate_ | hover_ | idle_.

(** What the tag pass reads from outside text.py. *)
Record env : Type := mkEnv {
  (** the builtin [int(s, base)] *)
  e_int : ustring → Z → result Z;
  (** the properties of [renpy.config.hyperlink_styler(target)] once
      [set_prefix] has been called with the given prefix *)
  e_hyperlink_styler : ustring → prefix → style_props;
  (** [renpy.display.focus.argument] *)
  e_focus_argument : option nat;
  (** [getattr(renpy.store.style, name)]; [None] when there is no such
      attribute *)
  e_store_style : ustring → option style_props;
  (** [self.style] and [self.activated] *)
  e_style : style_props;
  e_activated : bool
}.

(** The state of the pass: the stack [tsl], the [triples] built so far,
    [self.laidout_hyperlinks], and the identity of the next object
    allocated. *)
Record layout_state : Type := mkLayout {
  tsl : list TextStyle;
  triples : list triple;
  laidout_hyperlinks : list ustring;
  next_oid : nat
}.

(** A fresh [TextStyle] whose fields are then assigned from [p]. *)
Definition style_of_props (o : nat) (p : style_props)
    (c b : option rgba) (h : option nat) : TextStyle :=
  mkTextStyle o (p_font p) (p_size p) (p_bold p) (p_italic p)
              (p_underline p) (p_strikethrough p) c b h.

(** [TextStyle(source)]: a new object with the fields of [source]. *)
Definition copy_style (o : nat) (source : TextStyle) : TextStyle :=
  mkTextStyle o (font source) (size source) (bold source) (italic source)
              (underline source) (strikethrough source) (ts_color source)
              (black_color source) (hyperlink source).

(** Lines 935-947. *)
Definition layout_init (E : env) : layout_state :=
  mkLayout [style_of_props 0 (e_style E) None None None] [] [] 1.

(** [tsl[-1]] *)
Definition top (l : list TextStyle) : result TextStyle :=
  match last l with
  | Some ts => Ok ts
  | None => Raise IndexError
  end.

(** The group of the patterns [a=...] and [font=...], a dot-star: the
    characters up to the first newline. *)
Definition dot_star (s : ustring) : ustring :=
  (span (fun c => negb (c =? c_newline)%N) s).1.

(** [re.match(r'size=(\+|-|)(\d+)', i)]: the groups 1 and 2 of the match. *)
Definition match_size (i : ustring) : option (ustring * ustring) :=
  if startswith i (U "size=") then
    let r := drop 5 i in
    let '(sign, r') :=
      match r with
      | c :: r' =>
          if (c =? c_plus)%N || (c =? c_minus)%N then ([c], r') else ([], r)
      | [] => ([], r)
      end in
    match (span is_digit r').1 with
    | [] => None
    | ds => Some (sign, ds)
    end
  else None.

(** [re.match(r'color=(\#?[a-fA-F0-9]+)', i)]: the group 1 of the match. *)
Definition match_color (i : ustring) : option ustring :=
  if startswith i (U "color=") then
    let r := drop 6 i in
    let '(h, r') :=
      match r with
      | c :: r' => if (c =? c_hash)%N then ([c], r') else ([], r)
      | [] => ([], r)
      end in
    match (span is_hexdigit r').1 with
    | [] => None
    | ds => Some (h ++ ds)
    end
  else None.

(** The tags that open a scope from a copy of the current style (lines
    1043-1119): [ts] is the copy, the result is the style after the tag's
    assignments. *)
Definition open_tag (E : env) (i : ustring) (ts : TextStyle)
    : result TextStyle :=
  let set_bold b ts :=
    mkTextStyle (oid ts) (font ts) (size ts) b (italic ts) (underline ts)
                (strikethrough ts) (ts_color ts) (black_color ts)
                (hyperlink ts) in
  let set_italic b ts :=
    mkTextStyle (oid ts) (font ts) (size ts) (bold ts) b (underline ts)
                (strikethrough ts) (ts_color ts) (black_color ts)
                (hyperlink ts) in
  let set_underline b ts :=
    mkTextStyle (oid ts) (font ts) (size ts) (bold ts) (italic ts) b
                (strikethrough ts) (ts_color ts) (black_color ts)
                (hyperlink ts) in
  let set_strikethrough b ts :=
    mkTextStyle (oid ts) (font ts) (size ts) (bold ts) (italic ts)
                (underline ts) b (ts_color ts) (black_color ts)
                (hyperlink ts) in
  let set_size z ts :=
    mkTextStyle (oid ts) (font ts) z (bold ts) (italic ts) (underline ts)
                (strikethrough ts) (ts_color ts) (black_color ts)
                (hyperlink ts) in
  let set_font f ts :=
    mkTextStyle (oid ts) f (size ts) (bold ts) (italic ts) (underline ts)
                (strikethrough ts) (ts_color ts) (black_color ts)
                (hyperlink ts) in
  let set_color c ts :=
    mkTextStyle (oid ts) (font ts) (size ts) (bold ts) (italic ts)
                (underline ts) (strikethrough ts) c (black_color ts)
                (hyperlink ts) in
  if str_eqb i (U "b") then Ok (set_bold true ts)
  else if str_eqb i (U "i") then Ok (set_italic true ts)
  else if str_eqb i (U "u") then Ok (set_underline true ts)
  else if str_eqb i (U "s") then Ok (set_strikethrough true ts)
  else if str_eqb i (U "plain") then
    Ok (set_underline false (set_italic false (set_bold false ts)))
  else
    match i with
    | [] => Raise IndexError
    | c :: name =>
        if (c =? c_equals)%N then
          match e_store_style E name with
          | None => Raise AttributeError
          | Some p =>
              Ok (style_of_props (oid ts) p (p_color p) (p_black_color p)
                    (hyperlink ts))
          end
        else if startswith i (U "font") then
          if startswith i (U "font=") then
            Ok (set_font (dot_star (drop 5 i)) ts)
          else
            Raise (Exception
              (U "Font tag " ++ i ++ U " could not be parsed."))
        else if startswith i (U "size") then
          match match_size i with
          | None =>
              Raise (Exception
                (U "Size tag " ++ i ++ U " could not be parsed."))
          | Some (sign, ds) =>
              n ← e_int E ds 10;
              if str_eqb sign (U "+") then Ok (set_size (size ts + n) ts)
              else if str_eqb sign (U "-") then Ok (set_size (size ts - n) ts)
              else Ok (set_size n ts)
          end
        else if startswith i (U "color") then
          match match_color i with
          | None =>
              Raise (Exception
                (U "Color tag " ++ i ++ U " could not be parsed."))
          | Some g =>
              c ← color (e_int E) g;
              Ok (set_color (Some c) ts)
          end
        else
          Raise (Exception
            (U "Text tag " ++ i
             ++ U " was not recognized. Case and spacing matter here."))
    end.

(** The body of the loop over the tokens (lines 964-1146), for the token
    kinds the tokenizer yields. *)
Definition layout_token (E : env) (st : layout_state)
    (tok : kind * ustring) : result layout_state :=
  let '(kind, i) := tok in
  match kind with
  | newline =>
      ts ← top (tsl st);
      Ok (mkLayout (tsl st) (triples st ++ [(newline, ts, [])])
                   (laidout_hyperlinks st) (next_oid st))
  | tag =>
      if startswith i (U "/") then
        (* [tsl.pop()], then [if not tsl: raise] *)
        match tsl st with
        | [] => Raise IndexError
        | _ =>
            let tsl' := removelast (tsl st) in
            if negb (nonempty tsl') then
              Raise (Exception
                (U "Closing tag " ++ i ++ U " does not match an open tag."))
            else
              Ok (mkLayout tsl' (triples st) (laidout_hyperlinks st)
                           (next_oid st))
        end
      else if str_eqb i (U "w") then Ok st
      else if str_eqb i (U "nw") then Ok st
      else if startswith i (U "w=") then Ok st
      else if str_eqb i (U "fast") then
        ts ← top (tsl st);
        Ok (mkLayout (tsl st) (triples st ++ [(start, ts, [])])
                     (laidout_hyperlinks st) (next_oid st))
      else if startswith i (U "a=") then
        let target := dot_star (drop 2 i) in
        let link := length (laidout_hyperlinks st) in
        let pre :=
          if bool_decide (e_focus_argument E = Some link) then
            if e_activated E then activate_ else hover_
          else idle_ in
        let hls := e_hyperlink_styler E target pre in
        let ts := style_of_props (next_oid st) hls (p_color hls)
                    (p_black_color hls) (Some link) in
        Ok (mkLayout (tsl st ++ [ts]) (triples st)
                     (laidout_hyperlinks st ++ [target]) (S (next_oid st)))
      else
        cur ← top (tsl st);
        ts ← open_tag E i (copy_style (next_oid st) cur);
        Ok (mkLayout (tsl st ++ [ts]) (triples st) (laidout_hyperlinks st)
                     (S (next_oid st)))
  | space =>
      ts ← top (tsl st);
      Ok (mkLayout (tsl st) (triples st ++ [(space, ts, i)])
                   (laidout_hyperlinks st) (next_oid st))
  | word =>
      ts ← top (tsl st);
      Ok (mkLayout (tsl st) (triples st ++ [(word, ts, i)])
                   (laidout_hyperlinks st) (next_oid st))
  | start =>
      Raise (Exception (U "Unknown text token kind start."))
  end.

(** The loop of lines 964-1146. *)
Fixpoint layout_tokens (E : env) (st : layout_state)
    (tokens : list (kind * ustring)) : result layout_state :=
  match tokens with
  | [] => Ok st
  | tok :: tokens' =>
      st' ← layout_token E st tok;
      layout_tokens E st' tokens'
  end.

(** Lines 1150-1151: [if len(tsl) != 1: Exception("A tag was left open at
    the end of the text.")].  The exception object is built and dropped;
    there is no [raise], so the statement has no effect. *)
Definition end_of_tags (st : layout_state) : result layout_state :=
  if negb (Nat.eqb (length (tsl st)) 1) then
    let _ := Exception (U "A tag was left open at the end of the text.") in
    Ok st
  else Ok st.

(** The tag pass: lines 930-1151. *)
Definition layout_tags (E : env) (tokens : list (kind * ustring))
    : result layout_state :=
  st ← layout_tokens E (layout_init E) tokens;
  end_of_tags st.

(** [text_layout] (lines 608-613), with [style.layout == "subtitle"] as
    [subtitle]. *)
Record layout_style : Type := mkLayoutStyle {
  subtitle : bool;
  first_indent : Z;
  rest_indent : Z;
  justify : bool;
  subtitle_width : Z
}.

Section TextLayout.
Variable f_size : TextStyle → ustring → Z.
Variable rtl : bool.
Variable log2vis : ustring → ustring.

Definition text_layout (fuel : nat) (triples : list triple) (width : Z)
    (style : layout_style)
    : option (result (list (list triple) * list bool)) :=
  if subtitle style then
    subtitle_text_layout f_size rtl log2vis fuel triples width
      (subtitle_width style) (justify style)
  else
    Some (Ok (greedy_text_layout f_size rtl log2vis triples width
                (first_indent style) (rest_indent style) (justify style))).

(** [Text.layout] up to the call of [renpy.config.text_layout] (line
    1156), which is [text_layout]: [None] when the fuel of the subtitle
    loops runs out, [Some (Raise e)] when the tag pass or the line
    breaking raises [e], [Some (Ok (linetriples, lines_last))] when both
    complete. *)
Definition Text_layout (fuel : nat) (E : env) (style : layout_style)
    (tokens : list (kind * ustring)) (width : Z)
    : option (result (list (list triple) * list bool)) :=
  match layout_tags E tokens with
  | Raise e => Some (Raise e)
  | Ok st => text_layout fuel (triples st) width style
  end.
End TextLayout.

(** ** [Text.update]: the pause tags (text.py, lines 734-824) *)

Section Update.
(** The builtin [float] and the type of its values. *)
Variable F : Type.
Variable float_ : ustring → result F.

(** What the first loop (lines 734-782) works on: [new_tokens], [fasts],
    [self.no_wait], [self.pauses] and [self.pause_lengths]. *)
Record pause_state : Type := mkPause {
  u_new_tokens : list (kind * ustring);
  u_fasts : Z;
  u_no_wait : bool;
  u_pauses : Z;
  u_pause_lengths : list (option F)
}.

(** Lines 735-741. *)
Definition pause_init : pause_state := mkPause [] 0 false 0 [].

(** The body of the first loop. *)
Definition pause_token (st : pause_state) (i : kind * ustring)
    : result pause_state :=
  let '(type, text) := i in
  if kind_eqb type tag then
    if str_eqb text (U "p") then
      Ok (mkPause (u_new_tokens st ++ [(tag, U "w"); (newline, [c_newline])])
                  (u_fasts st) (u_no_wait st) (u_pauses st + 1)
                  (u_pause_lengths st ++ [None]))
    else if startswith text (U "p=") then
      x ← float_ (drop 2 text);
      Ok (mkPause (u_new_tokens st
                   ++ [(tag, U "w=" ++ drop 2 text); (newline, [c_newline])])
                  (u_fasts st) (u_no_wait st) (u_pauses st + 1)
                  (u_pause_lengths st ++ [Some x]))
    else if str_eqb text (U "nw") then
      Ok (mkPause (u_new_tokens st ++ [i]) (u_fasts st) true (u_pauses st)
                  (u_pause_lengths st))
    else if str_eqb text (U "fast") then
      Ok (mkPause (u_new_tokens st ++ [i]) (u_fasts st + 1) false 0 [])
    else if str_eqb text (U "w") then
      Ok (mkPause (u_new_tokens st ++ [i]) (u_fasts st) (u_no_wait st)
                  (u_pauses st + 1) (u_pause_lengths st ++ [None]))
    else if startswith text (U "w=") then
      x ← float_ (drop 2 text);
      Ok (mkPause (u_new_tokens st ++ [i]) (u_fasts st) (u_no_wait st)
                  (u_pauses st + 1) (u_pause_lengths st ++ [Some x]))
    else
      Ok (mkPause (u_new_tokens st ++ [i]) (u_fasts st) (u_no_wait st)
                  (u_pauses st) (u_pause_lengths st))
  else
    Ok (mkPause (u_new_tokens st ++ [i]) (u_fasts st) (u_no_wait st)
                (u_pauses st) (u_pause_lengths st)).

(** The first loop over [self.tokens[0]]. *)
Fixpoint pause_tokens (st : pause_state) (tokens : list (kind * ustring))
    : result pause_state :=
  match tokens with
  | [] => Ok st
  | i :: tokens' =>
      st' ← pause_token st i;
      pause_tokens st' tokens'
  end.

(** What the second loop (lines 784-824, run when [self.pause] is not
    [None]) works on: [new_tokens], [fasts], [pause],
    [self.no_wait_once], [self.keep_pausing] and [self.pause_length]. *)
Record cut_state : Type := mkCut {
  k_new_tokens : list (kind * ustring);
  k_fasts : Z;
  k_pause : Z;
  k_no_wait_once : bool;
  k_keep_pausing : bool;
  k_pause_length : option F
}.

(** The second loop; a [break] returns the state at once. *)
Fixpoint cut_tokens (st : cut_state) (tokens : list (kind * ustring))
    : result cut_state :=
  match tokens with
  | [] => Ok st
  | i :: tokens' =>
      let '(type, text) := i in
      let new_tokens := k_new_tokens st ++ [i] in
      if kind_eqb type tag then
        let fasts := if str_eqb text (U "fast") then k_fasts st - 1
                     else k_fasts st in
        let new_tokens := if str_eqb text (U "nw") then removelast new_tokens
                          else new_tokens in
        if negb (fasts =? 0) then
          cut_tokens (mkCut new_tokens fasts (k_pause st)
                        (k_no_wait_once st) (k_keep_pausing st)
                        (k_pause_length st)) tokens'
        else if str_eqb text (U "nw") then
          Ok (mkCut new_tokens fasts (k_pause st) true (k_keep_pausing st)
                    (k_pause_length st))
        else if str_eqb text (U "w") then
          if k_pause st =? 0 then
            Ok (mkCut new_tokens fasts (k_pause st) (k_no_wait_once st)
                      true None)
          else
            cut_tokens (mkCut new_tokens fasts (k_pause st - 1)
                          (k_no_wait_once st) (k_keep_pausing st)
                          (k_pause_length st)) tokens'
        else if startswith text (U "w=") then
          if k_pause st =? 0 then
            x ← float_ (drop 2 text);
            Ok (mkCut new_tokens fasts (k_pause st) (k_no_wait_once st)
                      true (Some x))
          else
            cut_tokens (mkCut new_tokens fasts (k_pause st - 1)
                          (k_no_wait_once st) (k_keep_pausing st)
                          (k_pause_length st)) tokens'
        else
          cut_tokens (mkCut new_tokens fasts (k_pause st)
                        (k_no_wait_once st) (k_keep_pausing st)
                        (k_pause_length st)) tokens'
      else
        cut_tokens (mkCut new_tokens (k_fasts st) (k_pause st)
                      (k_no_wait_once st) (k_keep_pausing st)
                      (k_pause_length st)) tokens'
  end.
End Update.

Arguments u_new_tokens {F} _.
Arguments u_fasts {F} _.
Arguments u_no_wait {F} _.
Arguments u_pauses {F} _.
Arguments u_pause_lengths {F} _.
Arguments k_new_tokens {F} _.
Arguments k_fasts {F} _.
Arguments k_pause {F} _.
Arguments k_no_wait_once {F} _.
Arguments k_keep_pausing {F} _.
Arguments k_pause_length {F} _.

(** ** [Text.get_simple_length] (text.py, lines 1257-1279) *)

(** The body of the inner loop, for tokens that carry text. *)
Definition simple_length_token (rv : Z) (tok : kind * ustring) : Z :=
  let '(type, text) := tok in
  match type with
  | newline | word | space => rv + Z.of_nat (length text)
  | tag => if str_eqb text (U "fast") then 0 else rv
  | start => rv
  end.

(** [self.tokens] is a list of token lists. *)
Definition get_simple_length (tokens : list (list (kind * ustring))) : Z :=
  fold_left (fun rv tl => fold_left simple_length_token tl rv) tokens 0.

(** ** Vocabulary of the statements *)

(** [l] without the space triples at its end. *)
Fixpoint rstrip_spaces (l : list triple) : list triple :=
  match l with
  | [] => []
  | t :: l' =>
      match rstrip_spaces l' with
      | [] => if kind_eqb (tkind t) space then [] else [t]
      | r => t :: r
      end
  end.

(** The first triple of [l] is there and is not a space. *)
Definition starts_with_content (l : list triple) : bool :=
  match l with
  | t :: _ => negb (kind_eqb (tkind t) space)
  | [] => false
  end.

(** The target width of the line of index [i]: the first line is indented
    by [first_indent], every other line by [rest_indent]. *)
Definition line_target (width first_indent rest_indent : Z) (i : nat) : Z :=
  match i with
  | O => width - first_indent
  | S _ => width - rest_indent
  end.

(** What [check_text_tags] takes for a close tag: the text it keeps of
    the tag (lines 1530-1531) starts with a slash (line 1534). *)
Definition is_close (text : ustring) : bool :=
  match strip_args text with
  | c :: _ => (c =? c_slash)%N
  | [] => false
  end.

(** The name of a tag, as tags are written: a tag is [NAME] or
    [NAME=ARGUMENT] ([b], [color=HEX], [a=TARGET], [=STYLENAME] with the
    empty name), and a name holds no equals sign.  [tag_named text name]
    says that the tag written [text] has the name [name]. *)
Inductive tag_named : ustring → ustring → Prop :=
| tag_bare name : c_equals ∉ name → tag_named name name
| tag_with_argument name argument :
    c_equals ∉ name → tag_named (name ++ c_equals :: argument) name.

(** A token list whose tags are balanced: every tag is recognized, a
    recognized tag that needs no closing stands alone, and a recognized
    scope tag is closed, after a balanced stretch, by the close tag of its
    name, the tag named [/NAME]. *)
Inductive balanced : list (kind * ustring) → Prop :=
| balanced_nil : balanced []
| balanced_text k t toks :
    k ≠ tag → balanced toks → balanced ((k, t) :: toks)
| balanced_single t name toks :
    tag_named t name →
    text_tags !! name = Some false →
    balanced toks →
    balanced ((tag, t) :: toks)
| balanced_scope t name t' inner toks :
    tag_named t name →
    text_tags !! name = Some true →
    tag_named t' (c_slash :: name) →
    balanced inner →
    balanced toks →
    balanced ((tag, t) :: inner ++ (tag, t') :: toks).



(** The invariants of the loop of [greedy_text_layout]. *)
Section GreedyInvariants.
Variable f_size : TextStyle → ustring → Z.
Variable rtl : bool.
Variable log2vis : ustring → ustring.
Variables width first_indent rest_indent : Z.
Variable justify : bool.

(** A line buffer fits its target: up to its last triple that is not a
    space it holds at most one triple, or it is no wider than the
    target. *)
Definition fits (target : Z) (l : list triple) : Prop :=
  (length (rstrip_spaces l) <= 1)%nat
  ∨ layout_width f_size rtl log2vis (rstrip_spaces l) justify <= target.

Definition greedy_widths (st : greedy_state) : Prop :=
  length (g_lines st) = length (g_lines_last st)
  ∧ g_target st
    = line_target width first_indent rest_indent (length (g_lines st))
  ∧ fits (g_target st) (g_line st)
  ∧ ∀ i l,
      g_lines st !! i = Some l → g_lines_last st !! i = Some false →
      fits (line_target width first_indent rest_indent i) l.

Definition greedy_heads (st : greedy_state) : Prop :=
  length (g_lines st) = length (g_lines_last st)
  ∧ (g_line st = [] → g_after_newline st = true)
  ∧ ∀ i,
      g_lines_last st !! i = Some false →
      ∃ l, (g_lines st ++ [g_line st]) !! S i = Some l
           ∧ starts_with_content l = true.
End GreedyInvariants.

(** No text is a key of the width cache. *)
Definition no_text_key (st : ts_state) : Prop :=
  ∀ s, wcache st !! PStr s = None.

(** The payloads of the tokens, one after the other. *)
Definition payloads (tokens : list (kind * ustring)) : ustring :=
  concat (map snd tokens).

(** ** Inputs used in the examples *)

(** A font in which every character is one unit wide. *)
Definition unit_font (ts : TextStyle) (text : ustring) : Z :=
  Z.of_nat (length text).

Definition plain_props : style_props :=
  mkProps (U "DejaVuSans.ttf") 22 false false false false None None.

Definition plain_env : env :=
  mkEnv int_digits (fun _ _ => plain_props) None (fun _ => None)
        plain_props false.

Definition root_style : TextStyle :=
  style_of_props 0 plain_props None None None.

Definition a_word (s : string) : triple := (word, root_style, U s).
Definition a_space : triple := (space, root_style, U " ").
Definition a_newline : triple := (newline, root_style, []).

(** The triples of ["aaaaaaaa bbbbbbbbbb cccccccccc dddddddddd"]. *)
Definition four_words : list triple :=
  [a_word "aaaaaaaa"; a_space; a_word "bbbbbbbbbb"; a_space;
   a_word "cccccccccc"; a_space; a_word "dddddddddd"].

(** ** Vocabulary of the further properties *)

(** The text of the input a token was read from: a tag with its braces, the
    word [{] as the doubled brace it escapes, every other token as its
    payload. *)
Definition source_of (tok : kind * ustring) : ustring :=
  match tok with
  | (tag, t) => c_lbrace :: t ++ [c_rbrace]
  | (word, t) => if str_eqb t [c_lbrace] then [c_lbrace; c_lbrace] else t
  | (_, t) => t
  end.

(** A character that is no brace. *)
Definition not_brace (c : N) : bool :=
  negb ((c =? c_lbrace)%N || (c =? c_rbrace)%N).

(** A character a word goes on with: no space, no newline, no left brace. *)
Definition word_char (c : N) : bool :=
  negb ((c =? c_space)%N || (c =? c_newline)%N || (c =? c_lbrace)%N).

(** Text in which every left brace starts a tag [{name}] or is doubled. *)
Inductive markup : ustring → Prop :=
| markup_nil : markup []
| markup_char c s : c ≠ c_lbrace → markup s → markup (c :: s)
| markup_tag name s :
    name ≠ [] → forallb not_brace name = true → markup s →
    markup (c_lbrace :: name ++ c_rbrace :: s)
| markup_untag s : markup s → markup (c_lbrace :: c_lbrace :: s).

(** The shape of a token the tokenizer yields. *)
Definition token_shape (tok : kind * ustring) : Prop :=
  match tok with
  | (space, t) => t = [c_space] ∨ t = [c_zwsp]
  | (newline, t) => t = [c_newline]
  | (tag, t) => t ≠ [] ∧ forallb not_brace t = true
  | (word, t) =>
      t = [c_lbrace] ∨ (t ≠ [] ∧ forallb word_char t = true
                        ∧ head t ≠ Some c_space ∧ head t ≠ Some c_zwsp)
  | (start, _) => False
  end.

(** The tokens after which the validator is back at the stack [st]: the
    scopes of [st] are closed one after the other, from the innermost, with
    balanced stretches in between. *)
Inductive closes : list ustring → list (kind * ustring) → Prop :=
| closes_nil toks : balanced toks → closes [] toks
| closes_snoc st n inner t' rest :
    balanced inner →
    tag_named t' (c_slash :: n) →
    closes st rest →
    closes (st ++ [n]) (inner ++ (tag, t') :: rest).

(** [get_width] called on each of [texts] in turn: the values returned and
    the state left. *)
Definition get_width_calls (f_size : TextStyle → ustring → Z)
    (ts : TextStyle) (texts : list ustring) (st : ts_state)
    : list pyobj * ts_state :=
  fold_left
    (fun acc t =>
       let r := TextStyle_get_width f_size ts t acc.2 in
       (acc.1 ++ [r.1], r.2))
    texts ([], st).

(** A triple that is neither a space nor a newline. *)
Definition is_content (t : triple) : bool :=
  negb (kind_eqb (tkind t) space) && negb (kind_eqb (tkind t) newline).

Definition is_newline (t : triple) : bool := kind_eqb (tkind t) newline.

Definition is_space (t : triple) : bool := kind_eqb (tkind t) space.

(** The lines the core pass of the balanced fill returns when it is asked
    for a line count [n] other than zero. *)
Definition core_lines (f_size : TextStyle → ustring → Z) (rtl : bool)
    (log2vis : ustring → ustring) (triples : list triple)
    (width soft n : Z) (justify : bool) : list (list triple) :=
  let st := fold_left (core_step f_size rtl log2vis width soft justify)
              triples (mkCore [] [] (soft * n) (soft * n / n) n) in
  map (fun l => pop_leading_space (pop_trailing_space l))
      (c_lines st ++ [c_line st]).

(** The first triple of [l], if there is one, is not a space. *)
Definition no_leading_space (l : list triple) : Prop :=
  ∀ t, head l = Some t → tkind t ≠ space.

(** A tag token that closes a scope in [Text.layout]. *)
Definition closes_scope (tok : kind * ustring) : bool :=
  kind_eqb tok.1 tag && startswith tok.2 (U "/").

(** A tag that [Text.layout] passes over without a scope: [w], [nw],
    [w=...] and [fast]. *)
Definition no_scope (i : ustring) : bool :=
  str_eqb i (U "w") || str_eqb i (U "nw") || startswith i (U "w=")
  || str_eqb i (U "fast").

(** A tag token that opens a scope in [Text.layout]. *)
Definition opens_scope (tok : kind * ustring) : bool :=
  kind_eqb tok.1 tag && negb (startswith tok.2 (U "/"))
  && negb (no_scope tok.2).

(** The targets of the hyperlink tags of the tokens, in their order. *)
Definition link_targets (tokens : list (kind * ustring)) : list ustring :=
  flat_map
    (fun tok =>
       if kind_eqb tok.1 tag && startswith tok.2 (U "a=")
       then [dot_star (drop 2 tok.2)] else [])
    tokens.

(** The kind and text of the triple a token gives, if it gives one. *)
Definition triple_of_token (tok : kind * ustring)
    : list (kind * ustring) :=
  match tok with
  | (newline, _) => [(newline, [])]
  | (space, i) => [(space, i)]
  | (word, i) => [(word, i)]
  | (tag, i) => if str_eqb i (U "fast") then [(start, [])] else []
  | (start, _) => []
  end.

Definition kind_text (t : triple) : kind * ustring := (tkind t, ttext t).

(** The tags of the pause passes of [Text.update]. *)
Definition is_p_tag (tok : kind * ustring) : bool :=
  kind_eqb tok.1 tag
  && (str_eqb tok.2 (U "p") || startswith tok.2 (U "p=")).

Definition is_fast_tag (tok : kind * ustring) : bool :=
  kind_eqb tok.1 tag && str_eqb tok.2 (U "fast").

Definition is_nw_tag (tok : kind * ustring) : bool :=
  kind_eqb tok.1 tag && str_eqb tok.2 (U "nw").

(** What the first loop of [Text.update] writes for a token: for a [p] tag
    a [w] tag and a newline token, for a [p=...] tag the [w=...] tag of
    the same argument and a newline token, any other token as it is. *)
Definition pause_rewrite (tok : kind * ustring) : list (kind * ustring) :=
  match tok with
  | (tag, text) =>
      if str_eqb text (U "p") then [(tag, U "w"); (newline, [c_newline])]
      else if startswith text (U "p=") then
        [(tag, U "w=" ++ drop 2 text); (newline, [c_newline])]
      else [tok]
  | _ => [tok]
  end.

(** A word or a space token. *)
Definition is_text_token (tok : kind * ustring) : bool :=
  kind_eqb tok.1 word || kind_eqb tok.1 space.

(** A stand-in for the builtin [float] in the examples: it reads whole
    numbers. *)
Definition whole_float (s : ustring) : result Z := int_digits s 10.

(** * Properties *)

(** ** [color] *)

Lemma hexval_range c : is_hexdigit c = true → 0 <= hexval c < 16.
Proof.
  unfold is_hexdigit, hexval, is_digit.
  repeat match goal with
         | |- context [(?a <=? ?b)%N] => destruct (N.leb_spec a b)
         end; simpl; intros; try discriminate; lia.
Qed.

Lemma int_digits_hex ds :
  ds ≠ [] → forallb is_hexdigit ds = true →
  int_digits ds 16 = Ok (digits_value 16 ds).
Proof.
  intros Hne Hall. unfold int_digits.
  destruct ds as [|d ds]; [congruence|].
  replace (forallb _ (d :: ds)) with true; [reflexivity|].
  symmetry. apply forallb_forall. intros c Hc.
  rewrite forallb_forall in Hall. specialize (Hall c Hc).
  rewrite Hall. simpl. apply Z.ltb_lt. apply hexval_range. exact Hall.
Qed.

Lemma hexdigit_not_hash c : is_hexdigit c = true → (c =? c_hash)%N = false.
Proof.
  unfold is_hexdigit, is_digit, c_hash. intros H.
  apply N.eqb_neq. intros ->. discriminate H.
Qed.

Section ColorSpec.
Variable int_ : ustring → Z → result Z.
Hypothesis int_hex : ∀ ds,
  ds ≠ [] → forallb is_hexdigit ds = true →
  int_ ds 16 = Ok (digits_value 16 ds).

Lemma int_one d :
  is_hexdigit d = true → int_ [d] 16 = Ok (hexval d).
Proof.
  intros H. rewrite int_hex; [|discriminate|simpl; rewrite H; reflexivity].
  unfold digits_value. simpl. f_equal.
Qed.

Lemma int_two d e :
  is_hexdigit d = true → is_hexdigit e = true →
  int_ [d; e] 16 = Ok (16 * hexval d + hexval e).
Proof.
  intros Hd He.
  rewrite int_hex; [|discriminate|simpl; rewrite Hd, He; reflexivity].
  unfold digits_value. simpl. f_equal.
Qed.

(** C6.  For a string made of an optional leading [#] and then hex digits
    [ds], [color] reads 3 digits as RGB and 4 as RGBA, each digit [d]
    giving [0x11 * d], reads 6 digits as RRGGBB and 8 as RRGGBBAA, takes
    255 for a missing alpha, and raises an exception for every other
    number of digits; [color("#F00")] is [(255, 0, 0, 255)] and
    [color("08f0")] is [(0, 136, 255, 0)]. *)
Theorem color_hex_digits :
  (∀ s ds,
     s = ds ∨ s = c_hash :: ds →
     forallb is_hexdigit ds = true →
     match ds with
     | [r; g; b] =>
         color int_ s =
         Ok (hexval r * 17, hexval g * 17, hexval b * 17, 255)
     | [r; g; b; a] =>
         color int_ s =
         Ok (hexval r * 17, hexval g * 17, hexval b * 17, hexval a * 17)
     | [r1; r2; g1; g2; b1; b2] =>
         color int_ s =
         Ok (16 * hexval r1 + hexval r2, 16 * hexval g1 + hexval g2,
             16 * hexval b1 + hexval b2, 255)
     | [r1; r2; g1; g2; b1; b2; a1; a2] =>
         color int_ s =
         Ok (16 * hexval r1 + hexval r2, 16 * hexval g1 + hexval g2,
             16 * hexval b1 + hexval b2, 16 * hexval a1 + hexval a2)
     | _ => ∃ e, color int_ s = Raise e
     end)
  ∧ color int_ (U "#F00") = Ok (255, 0, 0, 255)
  ∧ color int_ (U "08f0") = Ok (0, 136, 255, 0).
Proof.
  assert (Hgen : ∀ ds,
    forallb is_hexdigit ds = true →
    match ds with
    | [r; g; b] =>
        color int_ (c_hash :: ds) =
        Ok (hexval r * 17, hexval g * 17, hexval b * 17, 255)
    | [r; g; b; a] =>
        color int_ (c_hash :: ds) =
        Ok (hexval r * 17, hexval g * 17, hexval b * 17, hexval a * 17)
    | [r1; r2; g1; g2; b1; b2] =>
        color int_ (c_hash :: ds) =
        Ok (16 * hexval r1 + hexval r2, 16 * hexval g1 + hexval g2,
            16 * hexval b1 + hexval b2, 255)
    | [r1; r2; g1; g2; b1; b2; a1; a2] =>
        color int_ (c_hash :: ds) =
        Ok (16 * hexval r1 + hexval r2, 16 * hexval g1 + hexval g2,
            16 * hexval b1 + hexval b2, 16 * hexval a1 + hexval a2)
    | _ => ∃ e, color int_ (c_hash :: ds) = Raise e
    end).
  { intros ds Hall.
    do 9 (try destruct ds as [|? ds]); simpl in Hall;
      repeat match goal with
             | H : _ && _ = true |- _ => apply andb_prop in H; destruct H
             end;
      cbn [color N.eqb c_hash Pos.eqb];
      try (eexists; reflexivity);
      repeat (try rewrite int_one by assumption;
              try rewrite int_two by assumption; cbn [mbind result_bind]);
      reflexivity. }
  assert (Hbare : ∀ ds, ds ≠ [] → forallb is_hexdigit ds = true →
                        color int_ ds = color int_ (c_hash :: ds)).
  { intros [|d ds] Hne Hall; [congruence|].
    simpl in Hall. apply andb_prop in Hall as [Hd _].
    cbn [color]. rewrite (hexdigit_not_hash d Hd). reflexivity. }
  split; [|split].
  - intros s ds [-> | ->] Hall.
    + destruct (decide (ds = [])) as [-> | Hne].
      * exists IndexError. reflexivity.
      * rewrite Hbare by assumption. apply Hgen. assumption.
    + apply Hgen. assumption.
  - exact (Hgen (U "F00") eq_refl).
  - rewrite (Hbare (U "08f0")) by (discriminate || reflexivity).
    exact (Hgen (U "08f0") eq_refl).
Qed.
End ColorSpec.

Lemma color_hex_digits_witness :
  color int_digits (U "#123a") = Ok (17, 34, 51, 170).
Proof.
  exact (proj1 (color_hex_digits int_digits int_digits_hex)
           (U "#123a") (U "123a") (or_intror eq_refl) eq_refl).
Defined.

(** ** [TextStyle.get_width] *)

(** A cache in which no text is a key never answers: the width comes from
    the backend, and the entry written is again keyed by a width. *)
Lemma get_width_uncached f_size ts t st :
  no_text_key st →
  (TextStyle_get_width f_size ts t st).1 = PInt (get_width f_size ts t)
  ∧ no_text_key (TextStyle_get_width f_size ts t st).2
  ∧ backend_log (TextStyle_get_width f_size ts t st).2
    = backend_log st ++ [t].
Proof.
  intros Hst. unfold TextStyle_get_width, get_width. rewrite (Hst t). simpl.
  repeat split. intros s. simpl. rewrite lookup_insert_ne by discriminate.
  apply Hst.
Qed.

Lemma ts_init_no_text_key : no_text_key ts_init.
Proof. intros s. apply lookup_empty. Qed.

(** C10.  What [get_width] does on a fresh [TextStyle]: the first call
    returns the backend's width [w] of [t] and stores the entry [w -> t],
    keyed by the width; [t] is still not a key of the cache, so the second
    call measures [t] with the backend again. *)
Theorem get_width_cache_keyed_by_width f_size ts t :
  let w := f_size ts t in
  let r1 := TextStyle_get_width f_size ts t ts_init in
  let r2 := TextStyle_get_width f_size ts t r1.2 in
  r1.1 = PInt w ∧ r2.1 = PInt w
  ∧ wcache r1.2 = {[ PInt w := PStr t ]}
  ∧ wcache r1.2 !! PStr t = None
  ∧ backend_log r1.2 = [t]
  ∧ backend_log r2.2 = [t; t].
Proof.
  cbv zeta.
  pose proof (get_width_uncached f_size ts t ts_init ts_init_no_text_key)
    as (H1 & Hk & Hl).
  pose proof (get_width_uncached f_size ts t _ Hk) as (H2 & _ & Hl2).
  unfold get_width in *.
  split; [exact H1|]. split; [exact H2|]. split; [reflexivity|].
  split; [apply Hk|]. split; [exact Hl|].
  rewrite Hl2, Hl. reflexivity.
Qed.

(** ** [text_tokenizer] *)

Lemma span_app p s : (span p s).1 ++ (span p s).2 = s.
Proof.
  induction s as [|c s IH]; simpl; [reflexivity|].
  destruct (p c); [|reflexivity].
  destruct (span p s) as [a b]. simpl in *. f_equal. exact IH.
Qed.

Lemma span_rest_length p s : (length (span p s).2 <= length s)%nat.
Proof.
  induction s as [|c s IH]; simpl; [lia|].
  destruct (p c); simpl; [|lia].
  destruct (span p s) as [a b]. simpl in *. lia.
Qed.

Lemma span_rest_subset p s x : x ∈ (span p s).2 → x ∈ s.
Proof.
  intros H. rewrite <- (span_app p s). apply elem_of_app. right. exact H.
Qed.

(** Where the input has no left brace, every position starts a match: a
    space, a newline or a word; the match and the rest make up the input. *)
Lemma western_match_no_brace c s :
  c ≠ c_lbrace →
  ∃ g t r,
    western_match (c :: s) = Some (g, t, r)
    ∧ (token_of_match (g, t)).2 ++ r = c :: s
    ∧ (length r <= length s)%nat
    ∧ (∀ x, x ∈ r → x ∈ s).
Proof.
  intros Hc. unfold western_match.
  assert (Hlb : (c =? c_lbrace)%N = false) by (apply N.eqb_neq; exact Hc).
  destruct (match_space (c :: s)) as [[t r]|] eqn:Hsp.
  { unfold match_space in Hsp.
    destruct ((c =? c_space)%N || (c =? c_zwsp)%N); [|discriminate].
    injection Hsp as <- <-. exists g_space, [c], s. simpl. auto. }
  replace (match_tag (c :: s)) with (@None (ustring * ustring))
    by (unfold match_tag; rewrite Hlb; reflexivity).
  replace (match_untag (c :: s)) with (@None (ustring * ustring))
    by (unfold match_untag; destruct s; [reflexivity|];
        rewrite Hlb; reflexivity).
  destruct (match_newline (c :: s)) as [[t r]|] eqn:Hnl.
  { unfold match_newline in Hnl.
    destruct (c =? c_newline)%N; [|discriminate].
    injection Hnl as <- <-. exists g_newline, [c], s. simpl. auto. }
  assert (Hnsp : (c =? c_space)%N = false).
  { unfold match_space in Hsp.
    destruct (c =? c_space)%N; [discriminate|reflexivity]. }
  assert (Hnnl : (c =? c_newline)%N = false).
  { unfold match_newline in Hnl.
    destruct (c =? c_newline)%N; [discriminate|reflexivity]. }
  unfold match_word.
  set (p := fun c0 : N => negb ((c0 =? c_space)%N || (c0 =? c_newline)%N
                                || (c0 =? c_lbrace)%N)).
  pose proof (span_app p s) as Happ.
  pose proof (span_rest_length p s) as Hlen.
  pose proof (span_rest_subset p s) as Hsub.
  simpl. replace (p c) with true by (unfold p; rewrite Hnsp, Hnnl, Hlb; reflexivity).
  destruct (span p s) as [a b]. simpl in *.
  exists g_word, (c :: a), b. simpl. rewrite Happ. auto.
Qed.

Lemma finditer_no_brace fuel s :
  (length s <= fuel)%nat → c_lbrace ∉ s →
  payloads (map token_of_match (finditer fuel s)) = s.
Proof.
  revert s. induction fuel as [|fuel IH]; intros s Hlen Hs.
  - destruct s; [reflexivity|simpl in Hlen; lia].
  - destruct s as [|c s]; [reflexivity|].
    assert (Hc : c ≠ c_lbrace) by (intros ->; apply Hs; left).
    destruct (western_match_no_brace c s Hc) as (g & t & r & Hm & Happ & Hr & Hsub).
    cbn [finditer]. rewrite Hm. unfold payloads in *. cbn [map concat].
    rewrite IH.
    + exact Happ.
    + simpl in Hlen. lia.
    + intros Hin. apply Hs. right. apply Hsub. exact Hin.
Qed.

(** C7, as the code has it.  Tokenizing a string that contains no left
    brace with the Western grammar and concatenating the payloads of the
    tokens in order gives the string back. *)
Theorem text_tokenizer_roundtrip s :
  c_lbrace ∉ s → payloads (text_tokenizer s) = s.
Proof.
  intros Hs. unfold text_tokenizer. apply finditer_no_brace; [lia|exact Hs].
Qed.

Lemma text_tokenizer_roundtrip_witness :
  payloads (text_tokenizer (U "Hello  world! }")) = U "Hello  world! }".
Proof.
  apply text_tokenizer_roundtrip. vm_compute.
  intros H. repeat (apply elem_of_cons in H as [H|H]; [discriminate H|]).
  apply elem_of_nil in H. exact H.
Defined.

(** C7, as the claim states it, fails on a tag: the payload of a tag token
    is the tag's name without its braces. *)
Lemma text_tokenizer_roundtrip_fails :
  text_tokenizer (U "{b}") = [(tag, U "b")]
  ∧ payloads (text_tokenizer (U "{b}")) ≠ U "{b}".
Proof. split; [reflexivity|discriminate]. Qed.

(** ** [check_text_tags] *)

Lemma check_tokens_text k t toks st :
  k ≠ tag → check_tokens ((k, t) :: toks) st = check_tokens toks st.
Proof.
  intros Hk. cbn [check_tokens]. unfold kind_eqb.
  rewrite bool_decide_eq_false_2 by exact Hk. reflexivity.
Qed.

Lemma check_tokens_open t (b : bool) toks st :
  is_close t = false →
  text_tags !! strip_args t = Some b →
  check_tokens ((tag, t) :: toks) st
  = check_tokens toks (if b then st ++ [strip_args t] else st).
Proof.
  intros Hc Hb. cbn [check_tokens]. unfold is_close in Hc.
  cbn [kind_eqb negb]. rewrite Hc, Hb. reflexivity.
Qed.

Lemma check_tokens_unknown t toks st :
  is_close t = false →
  text_tags !! strip_args t = None →
  check_tokens ((tag, t) :: toks) st
  = Some (U "Text tag '" ++ strip_args t ++ U "' is not known.").
Proof.
  intros Hc Hb. cbn [check_tokens]. unfold is_close in Hc.
  cbn [kind_eqb negb]. rewrite Hc, Hb. reflexivity.
Qed.

Lemma check_tokens_close t n toks st :
  strip_args t = c_slash :: n →
  check_tokens ((tag, t) :: toks) (st ++ [n]) = check_tokens toks st.
Proof.
  intros Ht. cbn [check_tokens]. cbn [kind_eqb negb]. rewrite Ht.
  rewrite N.eqb_refl, last_snoc.
  change (drop 1 (c_slash :: n)) with n. unfold str_eqb.
  rewrite bool_decide_eq_true_2 by reflexivity.
  cbn [negb]. rewrite removelast_last. reflexivity.
Qed.

Lemma check_tokens_close_mismatch t m n toks st :
  strip_args t = c_slash :: m → m ≠ n →
  check_tokens ((tag, t) :: toks) (st ++ [n])
  = Some (U "Close text tag '" ++ c_slash :: m
          ++ U "' does not match open text tag '" ++ n ++ U "'.").
Proof.
  intros Ht Hne. cbn [check_tokens]. cbn [kind_eqb negb]. rewrite Ht.
  rewrite N.eqb_refl, last_snoc.
  change (drop 1 (c_slash :: m)) with m. unfold str_eqb.
  rewrite bool_decide_eq_false_2 by congruence. reflexivity.
Qed.

(** What lines 1530-1531 keep of a tag is its name. *)
Lemma strip_args_bare name : c_equals ∉ name → strip_args name = name.
Proof.
  unfold strip_args. induction name as [|c name IH]; intros Hn.
  - reflexivity.
  - apply not_elem_of_cons in Hn as [Hc Hn]. cbn [span].
    replace (c =? c_equals)%N with false
      by (symmetry; apply N.eqb_neq; congruence).
    cbn [negb]. specialize (IH Hn).
    destruct (span _ name) as [a b]. simpl in *. rewrite IH. reflexivity.
Qed.

Lemma strip_args_argument name argument :
  c_equals ∉ name → strip_args (name ++ c_equals :: argument) = name.
Proof.
  unfold strip_args. induction name as [|c name IH]; intros Hn.
  - reflexivity.
  - apply not_elem_of_cons in Hn as [Hc Hn]. cbn [app span].
    replace (c =? c_equals)%N with false
      by (symmetry; apply N.eqb_neq; congruence).
    cbn [negb]. specialize (IH Hn).
    destruct (span _ (name ++ c_equals :: argument)) as [a b].
    simpl in *. rewrite IH. reflexivity.
Qed.

Lemma tag_named_strip_args t name :
  tag_named t name → strip_args t = name.
Proof.
  intros [n Hn|n a Hn];
    [apply strip_args_bare|apply strip_args_argument]; exact Hn.
Qed.

Lemma strip_args_tag_named t : tag_named t (strip_args t).
Proof.
  induction t as [|c t IH].
  - apply tag_bare. apply not_elem_of_nil.
  - destruct (N.eq_dec c c_equals) as [->|Hc].
    + change (strip_args (c_equals :: t)) with (@nil N).
      apply (tag_with_argument [] t). apply not_elem_of_nil.
    + assert (Hs : strip_args (c :: t) = c :: strip_args t).
      { unfold strip_args. cbn [span].
        replace (c =? c_equals)%N with false
          by (symmetry; apply N.eqb_neq; exact Hc).
        cbn [negb]. destruct (span _ t). reflexivity. }
      rewrite Hs. remember (strip_args t) as n eqn:Hn. clear Hs Hn.
      destruct IH as [n Hn|n a Hn].
      * apply tag_bare. apply not_elem_of_cons. auto.
      * apply (tag_with_argument (c :: n) a). apply not_elem_of_cons. auto.
Qed.

(** No recognized tag has a name that starts with a slash. *)
Lemma text_tags_no_slash name (b : bool) :
  text_tags !! name = Some b → head name ≠ Some c_slash.
Proof.
  unfold text_tags. intros H.
  apply lookup_insert_Some in H as [[<- _]|[_ H]]; [discriminate|].
  apply elem_of_list_to_map_2 in H.
  repeat (apply elem_of_cons in H as [[= -> _]|H];
          [vm_compute; discriminate|]).
  apply elem_of_nil in H. contradiction.
Qed.

Lemma is_close_head t name :
  tag_named t name → head name ≠ Some c_slash → is_close t = false.
Proof.
  intros Hn Hh. unfold is_close. rewrite (tag_named_strip_args _ _ Hn).
  destruct name as [|c name]; [reflexivity|].
  apply N.eqb_neq. intros ->. apply Hh. reflexivity.
Qed.

Lemma check_tokens_open_named t name (b : bool) toks st :
  tag_named t name →
  text_tags !! name = Some b →
  check_tokens ((tag, t) :: toks) st
  = check_tokens toks (if b then st ++ [name] else st).
Proof.
  intros Hn Hb.
  pose proof (is_close_head _ _ Hn (text_tags_no_slash _ _ Hb)) as Hc.
  pose proof (tag_named_strip_args _ _ Hn) as Hs.
  rewrite <- Hs in Hb. rewrite (check_tokens_open _ _ _ _ Hc Hb).
  rewrite Hs. reflexivity.
Qed.

Lemma check_tokens_close_named t name toks st :
  tag_named t (c_slash :: name) →
  check_tokens ((tag, t) :: toks) (st ++ [name]) = check_tokens toks st.
Proof.
  intros Hn. apply check_tokens_close.
  apply tag_named_strip_args. exact Hn.
Qed.

(** A balanced stretch leaves the stack as it found it. *)
Lemma check_tokens_balanced toks :
  balanced toks →
  ∀ rest st, check_tokens (toks ++ rest) st = check_tokens rest st.
Proof.
  induction 1 as [|k t toks Hk _ IH|t n toks Hn Hb _ IH
                  |t n t' inner toks Hn Hb Ht _ IHi _ IHt]; intros rest st.
  - reflexivity.
  - rewrite <- app_comm_cons, check_tokens_text by exact Hk. apply IH.
  - rewrite <- app_comm_cons, (check_tokens_open_named _ _ _ _ _ Hn Hb).
    apply IH.
  - rewrite <- app_comm_cons, (check_tokens_open_named _ _ _ _ _ Hn Hb).
    rewrite <- app_assoc, IHi, <- app_comm_cons.
    rewrite (check_tokens_close_named _ _ _ _ Ht). apply IHt.
Qed.

(** A diagnostic that every stack draws from [rest] is drawn from
    [pre ++ rest] too: the tokens of [pre] either stop with a diagnostic of
    their own or hand some stack on to [rest]. *)
Lemma check_tokens_prefix pre rest :
  (∀ st, check_tokens rest st ≠ None) →
  ∀ st, check_tokens (pre ++ rest) st ≠ None.
Proof.
  intros Hrest. induction pre as [|[k t] pre IH]; intros st; [apply Hrest|].
  rewrite <- app_comm_cons. cbn [check_tokens].
  destruct (negb (kind_eqb k tag)); [apply IH|].
  destruct (strip_args t) as [|c n] eqn:Hs.
  - destruct (text_tags !! []) as [b|]; [apply IH|discriminate].
  - destruct (c =? c_slash)%N.
    + destruct (last st) as [top|]; [|discriminate].
      destruct (negb (str_eqb top (drop 1 (c :: n)))); [discriminate|apply IH].
    + destruct (text_tags !! (c :: n)) as [b|]; [apply IH|discriminate].
Qed.

Lemma check_tokens_left_open st n :
  check_tokens [] (st ++ [n]) ≠ None.
Proof. cbn [check_tokens]. destruct st; discriminate. Qed.

(** Goals [tag_named t name] on given strings. *)
Ltac name_tag :=
  lazymatch goal with
  | |- tag_named ?t ?name =>
      first
        [ apply tag_bare
        | apply (tag_with_argument name (drop (S (length name)) t)) ];
      apply (bool_decide_unpack _); vm_compute; exact I
  end.

(** C8.  [check_text_tags] returns [None] on a string whose tags are
    balanced.  It returns a diagnostic on a string in which a recognized
    scope tag is followed by a balanced rest and so is never closed, on a
    string in which a recognized scope tag is followed, after a balanced
    stretch, by the close tag of another name, and on a string with a tag
    whose name is not recognized.  The name of a tag is the part in front
    of its argument, so tags with arguments count by their names.  On
    ["{b}bold"] the diagnostic says that [b] was left open. *)
Theorem check_text_tags_spec :
  (∀ s, balanced (text_tokenizer s) → check_text_tags s = None)
  ∧ (∀ s pre t name post,
       text_tokenizer s = pre ++ (tag, t) :: post →
       tag_named t name →
       text_tags !! name = Some true →
       balanced post →
       check_text_tags s ≠ None)
  ∧ (∀ s pre t name inner t' other post,
       text_tokenizer s = pre ++ (tag, t) :: inner ++ (tag, t') :: post →
       tag_named t name →
       text_tags !! name = Some true →
       balanced inner →
       tag_named t' (c_slash :: other) →
       other ≠ name →
       check_text_tags s ≠ None)
  ∧ (∀ s pre t name post,
       text_tokenizer s = pre ++ (tag, t) :: post →
       tag_named t name →
       head name ≠ Some c_slash →
       text_tags !! name = None →
       check_text_tags s ≠ None)
  ∧ check_text_tags (U "{b}bold")
    = Some (U "One or more text tags were left open at the end of the string: 'b'").
Proof.
  unfold check_text_tags. repeat apply conj.
  - intros s Hbal.
    rewrite <- (app_nil_r (text_tokenizer s)).
    rewrite (check_tokens_balanced _ Hbal). reflexivity.
  - intros s pre t name post -> Hn Hb Hbal.
    apply check_tokens_prefix. intros st.
    rewrite (check_tokens_open_named _ _ _ _ _ Hn Hb).
    rewrite <- (app_nil_r post), (check_tokens_balanced _ Hbal).
    apply check_tokens_left_open.
  - intros s pre t name inner t' other post -> Hn Hb Hbal Hn' Hne.
    apply check_tokens_prefix. intros st.
    rewrite (check_tokens_open_named _ _ _ _ _ Hn Hb).
    rewrite (check_tokens_balanced _ Hbal).
    rewrite (check_tokens_close_mismatch _ _ _ _ _
               (tag_named_strip_args _ _ Hn') Hne).
    discriminate.
  - intros s pre t name post -> Hn Hh Hb.
    apply check_tokens_prefix. intros st.
    pose proof (is_close_head _ _ Hn Hh) as Hc.
    rewrite <- (tag_named_strip_args _ _ Hn) in Hb.
    rewrite (check_tokens_unknown _ _ _ Hc Hb). discriminate.
  - vm_compute. reflexivity.
Qed.

Lemma check_text_tags_spec_witness :
  check_text_tags (U "{color=#f00}red{/color}") = None
  ∧ check_text_tags (U "{i}{size=+2}big{/size}") ≠ None
  ∧ check_text_tags (U "{color=#f00}red{/font}") ≠ None
  ∧ check_text_tags (U "{blink=2}bold") ≠ None.
Proof.
  destruct check_text_tags_spec as (Hbal & Hopen & Hswap & Hunknown & _).
  repeat apply conj.
  - apply Hbal.
    apply (balanced_scope (U "color=#f00") (U "color") (U "/color")
             [(word, U "red")] []);
      [name_tag | vm_compute; reflexivity | name_tag | | constructor].
    apply balanced_text; [discriminate | constructor].
  - apply (Hopen _ [] (U "i") (U "i")
             [(tag, U "size=+2"); (word, U "big"); (tag, U "/size")]);
      [reflexivity | name_tag | vm_compute; reflexivity | ].
    apply (balanced_scope (U "size=+2") (U "size") (U "/size")
             [(word, U "big")] []);
      [name_tag | vm_compute; reflexivity | name_tag | | constructor].
    apply balanced_text; [discriminate | constructor].
  - apply (Hswap _ [] (U "color=#f00") (U "color") [(word, U "red")]
             (U "/font") (U "font") []);
      [reflexivity | name_tag | vm_compute; reflexivity | | name_tag
      | discriminate].
    apply balanced_text; [discriminate | constructor].
  - apply (Hunknown _ [] (U "blink=2") (U "blink") [(word, U "bold")]);
      [reflexivity | name_tag | discriminate | vm_compute; reflexivity].
Defined.

(** ** The tag pass of [Text.layout] *)

(** The statement at the end of the pass has no effect. *)
Lemma end_of_tags_id st : end_of_tags st = Ok st.
Proof. unfold end_of_tags. destruct (negb _); reflexivity. Qed.

Lemma layout_tags_tokens E tokens :
  layout_tags E tokens = layout_tokens E (layout_init E) tokens.
Proof.
  unfold layout_tags.
  destruct (layout_tokens E (layout_init E) tokens) as [st|e]; simpl;
    [apply end_of_tags_id | reflexivity].
Qed.

(** A token leaves a style on the stack: the root style is never popped
    without an exception. *)
Lemma layout_token_stack E st tok st' :
  layout_token E st tok = Ok st' → tsl st ≠ [] → tsl st' ≠ [].
Proof.
  unfold layout_token. destruct tok as [k i]. intros H Hne.
  destruct k;
    repeat match type of H with
           | context [if ?b then _ else _] => destruct b eqn:?
           | context [top ?l] => destruct (top l)
           | context [open_tag ?a ?b ?c] => destruct (open_tag a b c)
           | context [match tsl st with _ => _ end] =>
               destruct (tsl st) eqn:?
           end;
    cbn [mbind result_bind] in H; try discriminate H;
    try (injection H as <-; cbn [tsl]; try assumption;
         try (intros Happ; apply app_eq_nil in Happ as [_ Happ];
              discriminate Happ)).
  all: try congruence.
  - intros Hnil. simpl in Heqb0. rewrite Hnil in Heqb0. discriminate Heqb0.
  - destruct (open_tag E i _); [|discriminate H]. cbn [mbind result_bind] in H.
    injection H as <-. cbn [tsl]. intros Happ.
    apply app_eq_nil in Happ as [_ Happ]. discriminate Happ.
Qed.

Lemma layout_tokens_stack E tokens st st' :
  layout_tokens E st tokens = Ok st' → tsl st ≠ [] → tsl st' ≠ [].
Proof.
  revert st. induction tokens as [|tok tokens IH]; intros st H Hne.
  - injection H as <-. exact Hne.
  - cbn [layout_tokens] in H.
    destruct (layout_token E st tok) as [st1|e] eqn:Htok; [|discriminate H].
    cbn [mbind result_bind] in H.
    exact (IH st1 H (layout_token_stack E st tok st1 Htok Hne)).
Qed.

(** C1.  The tag pass of [Text.layout] returns what its loop over the
    tokens returns, whatever the depth of the stack at the end.  On the
    tokens of ["{b}bold"], in every environment, the pass ends with two
    styles on the stack, the root and the one [{b}] opened, and returns
    without an exception; with greedy wrapping the layout goes on to break
    the triples into lines. *)
Theorem layout_unclosed_tag_returns (E : env) :
  (∀ tokens, layout_tags E tokens = layout_tokens E (layout_init E) tokens)
  ∧ (∃ st, layout_tags E (text_tokenizer (U "{b}bold")) = Ok st
           ∧ length (tsl st) = 2%nat)
  ∧ ∀ f_size rtl log2vis fuel width first_indent rest_indent justify
      subtitle_width,
      ∃ lines,
        Text_layout f_size rtl log2vis fuel E
          (mkLayoutStyle false first_indent rest_indent justify
             subtitle_width)
          (text_tokenizer (U "{b}bold")) width
        = Some (Ok lines).
Proof.
  assert (Htags : ∃ st, layout_tags E (text_tokenizer (U "{b}bold")) = Ok st
                        ∧ length (tsl st) = 2%nat).
  { rewrite layout_tags_tokens. eexists. split; reflexivity. }
  split; [apply layout_tags_tokens|]. split; [exact Htags|].
  intros. destruct Htags as (st & Hst & _).
  unfold Text_layout. rewrite Hst. unfold text_layout. cbn [subtitle].
  eexists. reflexivity.
Qed.

(** C2, as the code has it.  On a close tag [/NAME] the tag pass pops one
    style: with only the root style on the stack it raises the exception
    that the closing tag matches no open tag; with more styles on the stack
    it goes on with the stack one shorter, whatever [NAME] is, and changes
    nothing else. *)
Theorem layout_close_tag (E : env) (st : layout_state) (name : ustring) :
  match tsl st with
  | [] => layout_token E st (tag, c_slash :: name) = Raise IndexError
  | [_] =>
      layout_token E st (tag, c_slash :: name)
      = Raise (Exception (U "Closing tag " ++ c_slash :: name
                          ++ U " does not match an open tag."))
  | _ :: _ :: _ =>
      layout_token E st (tag, c_slash :: name)
      = Ok (mkLayout (removelast (tsl st)) (triples st)
                     (laidout_hyperlinks st) (next_oid st))
        ∧ S (length (removelast (tsl st))) = length (tsl st)
  end.
Proof.
  unfold layout_token.
  replace (startswith (c_slash :: name) (U "/")) with true
    by (destruct name; reflexivity).
  destruct (tsl st) as [|a [|b l]] eqn:Hl; [reflexivity|reflexivity|].
  split.
  - change (removelast (a :: b :: l)) with (a :: removelast (b :: l)).
    reflexivity.
  - rewrite <- Hl. destruct (tsl st) using rev_ind; [discriminate|].
    rewrite removelast_last, length_app. simpl. lia.
Qed.

(** C2, as the claim states it, fails on a close tag of another name: the
    tokens of ["{b}x{/i}"] pass, and [/i] pops the style [{b}] pushed. *)
Lemma layout_close_tag_name_ignored :
  ∃ st, layout_tags plain_env (text_tokenizer (U "{b}x{/i}")) = Ok st
        ∧ length (tsl st) = 1%nat.
Proof. eexists. split; reflexivity. Qed.

(** ** [greedy_text_layout] *)

Lemma rstrip_spaces_space l t :
  tkind t = space → rstrip_spaces (l ++ [t]) = rstrip_spaces l.
Proof.
  intros Ht. induction l as [|a l IH]; simpl.
  - rewrite Ht. reflexivity.
  - rewrite IH. reflexivity.
Qed.

Lemma rstrip_spaces_content l t :
  tkind t ≠ space → rstrip_spaces (l ++ [t]) = l ++ [t].
Proof.
  intros Ht. induction l as [|a l IH]; simpl.
  - unfold kind_eqb. rewrite bool_decide_eq_false_2 by exact Ht. reflexivity.
  - rewrite IH. destruct (l ++ [t]) eqn:E; [|reflexivity].
    destruct l; discriminate E.
Qed.

Lemma rstrip_spaces_pop l :
  rstrip_spaces (pop_trailing_space l) = rstrip_spaces l.
Proof.
  unfold pop_trailing_space.
  destruct l as [|a l] using rev_ind; [reflexivity|].
  rewrite last_snoc. unfold kind_eqb.
  destruct (bool_decide (tkind a = space)) eqn:E; [|reflexivity].
  apply bool_decide_eq_true_1 in E.
  rewrite removelast_last, rstrip_spaces_space by exact E. reflexivity.
Qed.

Lemma rstrip_spaces_singleton t : (length (rstrip_spaces [t]) <= 1)%nat.
Proof. simpl. destruct (kind_eqb (tkind t) space); simpl; lia. Qed.



Lemma lookup_map {A B} (f : A → B) (l : list A) (i : nat) :
  map f l !! i = f <$> l !! i.
Proof.
  revert i. induction l as [|a l IH]; intros [|i]; simpl; auto.
Qed.

Lemma lookup_snoc_Some {A} (l : list A) (x y : A) (i : nat) :
  (l ++ [x]) !! i = Some y →
  l !! i = Some y ∨ (i = length l ∧ y = x).
Proof.
  intros H. destruct (decide (i < length l)%nat) as [Hlt|Hge].
  - rewrite lookup_app_l in H by exact Hlt. left. exact H.
  - rewrite lookup_app_r in H by lia.
    destruct (i - length l)%nat as [|k] eqn:E; simpl in H; [|discriminate].
    right. split; [lia|congruence].
Qed.

Section GreedyProperties.
Variable f_size : TextStyle → ustring → Z.
Variable rtl : bool.
Variable log2vis : ustring → ustring.
Variables width first_indent rest_indent : Z.
Variable justify : bool.

Abbreviation step := (greedy_step f_size rtl log2vis width first_indent
                    rest_indent justify).
Abbreviation init := (mkGreedy [] [] [] (width - first_indent) true).
Abbreviation widths := (greedy_widths f_size rtl log2vis width first_indent
                      rest_indent justify).
Abbreviation fits_ := (fits f_size rtl log2vis justify).

Lemma fits_nil target : fits_ target [].
Proof. left. simpl. lia. Qed.

Lemma greedy_widths_flush st b :
  widths st → (b = false → fits_ (g_target st) (g_line st)) →
  ∀ i l,
    (g_lines st ++ [g_line st]) !! i = Some l →
    (g_lines_last st ++ [b]) !! i = Some false →
    fits_ (line_target width first_indent rest_indent i) l.
Proof.
  intros (Hlen & Htgt & Hfit & Hall) Hb i l Hl Hf.
  apply lookup_snoc_Some in Hl as [Hl | [-> ->]].
  - apply (Hall i l Hl).
    rewrite lookup_app_l in Hf; [exact Hf|].
    rewrite <- Hlen. apply lookup_lt_Some in Hl. exact Hl.
  - rewrite Hlen, lookup_app_r, Nat.sub_diag in Hf by lia.
    simpl in Hf. injection Hf as ->.
    rewrite <- Htgt. apply Hb. reflexivity.
Qed.

Lemma greedy_step_widths st t : widths st → widths (step st t).
Proof.
  intros Hst. pose proof Hst as (Hlen & Htgt & Hfit & Hall).
  assert (Hflush : ∀ b, length (g_lines st ++ [g_line st])
                        = length (g_lines_last st ++ [b])).
  { intros b. rewrite !length_app, Hlen. reflexivity. }
  assert (Hrest : ∀ x : list triple,
    width - rest_indent
    = line_target width first_indent rest_indent
        (length (g_lines st ++ [x]))).
  { intros x. rewrite length_app, Nat.add_comm. reflexivity. }
  assert (Hcontent : tkind t ≠ space →
    widths
      (if layout_width f_size rtl log2vis (g_line st ++ [t]) justify
          >? g_target st
       then mkGreedy (g_lines st ++ [g_line st]) [t]
              (g_lines_last st ++ [false]) (width - rest_indent) false
       else mkGreedy (g_lines st) (g_line st ++ [t]) (g_lines_last st)
              (g_target st) false)).
  { intros Hk.
    destruct (Z.gtb_spec
                (layout_width f_size rtl log2vis (g_line st ++ [t]) justify)
                (g_target st)) as [Hgt|Hle].
    - split; [apply Hflush|]. split; [apply Hrest|].
      split; [left; apply rstrip_spaces_singleton|].
      cbn [g_lines g_lines_last].
      apply greedy_widths_flush; [exact Hst|]. intros _. exact Hfit.
    - split; [exact Hlen|]. split; [exact Htgt|]. split; [|exact Hall].
      right. cbn [g_line g_target].
      rewrite rstrip_spaces_content by exact Hk. exact Hle. }
  unfold greedy_step. destruct (tkind t) eqn:Hk.
  - split; [apply Hflush|]. split; [apply Hrest|].
    split; [apply fits_nil|]. cbn [g_lines g_lines_last].
    apply greedy_widths_flush; [exact Hst|]. discriminate.
  - apply Hcontent. discriminate.
  - destruct (negb (nonempty (g_line st)) && negb (g_after_newline st));
      [exact Hst|].
    split; [exact Hlen|]. split; [exact Htgt|]. split; [|exact Hall].
    cbn [g_line g_target]. unfold fits.
    rewrite rstrip_spaces_space by exact Hk. exact Hfit.
  - apply Hcontent. discriminate.
  - apply Hcontent. discriminate.
Qed.

Lemma greedy_fold_widths triples st :
  widths st → widths (fold_left step triples st).
Proof.
  revert st. induction triples as [|t triples IH]; intros st Hst;
    [exact Hst|].
  simpl. apply IH. apply greedy_step_widths. exact Hst.
Qed.

Lemma greedy_init_widths : widths init.
Proof.
  split; [reflexivity|]. split; [reflexivity|]. split; [apply fits_nil|].
  intros i l Hl. destruct i; discriminate Hl.
Qed.

(** The bound the loop does keep.  A line that [greedy_text_layout] emits
    with the flag [False], taken up to its last triple that is not a
    space, is no wider than the target of the line as [layout_width]
    measures it, or holds at most one triple. *)
Lemma greedy_line_width (triples : list triple) (i : nat)
    (l : list triple) :
  let r := greedy_text_layout f_size rtl log2vis triples width
             first_indent rest_indent justify in
  r.1 !! i = Some l → r.2 !! i = Some false →
  (length (rstrip_spaces l) <= 1)%nat
  ∨ layout_width f_size rtl log2vis (rstrip_spaces l) justify
    <= line_target width first_indent rest_indent i.
Proof.
  cbv zeta. unfold greedy_text_layout.
  pose proof (greedy_fold_widths triples init greedy_init_widths)
    as (Hlen & Htgt & Hfit & Hall).
  set (st := fold_left step triples init) in *.
  cbn [fst snd]. intros Hl Hf.
  apply lookup_snoc_Some in Hf as [Hf | [_ Hf]]; [|discriminate].
  assert (Hi : (i < length (g_lines st))%nat).
  { rewrite Hlen. apply lookup_lt_Some in Hf. exact Hf. }
  rewrite lookup_app_l in Hl by (rewrite length_map; exact Hi).
  rewrite lookup_map in Hl.
  destruct (g_lines st !! i) as [l0|] eqn:Hl0; [|discriminate].
  injection Hl as <-. rewrite rstrip_spaces_pop.
  exact (Hall i l0 Hl0 Hf).
Qed.

Abbreviation heads := (greedy_heads).










End GreedyProperties.

Lemma greedy_line_width_witness :
  layout_width unit_font false id
    (rstrip_spaces [a_word "aa"; a_space; a_word "bb"]) false
  <= line_target 5 0 0 0.
Proof.
  pose proof (greedy_line_width unit_font false id 5 0 0 false
                [a_word "aa"; a_space; a_word "bb"; a_space; a_word "ccc"]
                0 [a_word "aa"; a_space; a_word "bb"]) as H.
  cbv zeta in H.
  specialize (H ltac:(vm_compute; reflexivity)
                ltac:(vm_compute; reflexivity)).
  destruct H as [H|H]; [|exact H].
  exfalso. vm_compute in H. lia.
Defined.

(** C3.  Lines 469-473 are headed "Remove trailing whitespace", and take
    one space triple off the end of a line.  Where two spaces end a line
    one of them stays and is measured with the line: in a font of one unit
    per character and at width 4, the text ["aaaa  b"] gives the first
    line, flagged [False], the word and a space.  The line holds two
    triples and is five units wide, one more than its target; without the
    space it is four units wide. *)
Theorem greedy_line_over_width :
  let r := greedy_text_layout unit_font false id
             [a_word "aaaa"; a_space; a_space; a_word "b"] 4 0 0 false in
  r = ([[a_word "aaaa"; a_space]; [a_word "b"]], [false; true])
  ∧ layout_width unit_font false id [a_word "aaaa"; a_space] false = 5
  ∧ layout_width unit_font false id [a_word "aaaa"] false = 4
  ∧ ¬ (layout_width unit_font false id [a_word "aaaa"; a_space] false
       <= line_target 4 0 0 0).
Proof.
  assert (H5 : layout_width unit_font false id [a_word "aaaa"; a_space] false
               = 5) by (vm_compute; reflexivity).
  cbv zeta. split; [vm_compute; reflexivity|]. split; [exact H5|].
  split; [vm_compute; reflexivity|].
  rewrite H5. unfold line_target. lia.
Qed.



(** ** [subtitle_text_layout] *)

(** Comparisons of two given kinds are evaluated. *)
Ltac eval_kinds :=
  repeat match goal with
         | |- context [kind_eqb ?a ?b] =>
             is_constructor a; is_constructor b;
             let v := eval vm_compute in (kind_eqb a b) in
             change (kind_eqb a b) with v
         end.

Section SubtitleProperties.
Variable f_size : TextStyle → ustring → Z.
Variable rtl : bool.
Variable log2vis : ustring → ustring.

Abbreviation core := (subtitle_text_layout_core f_size rtl log2vis).
Abbreviation lines_of := (core_lines f_size rtl log2vis).

(** The first loop stops at the first [i], counting up from [i0], with
    [sumwidths / i <= bound]. *)
Lemma estimate_spec fuel sumwidths bound i0 i :
  estimate fuel sumwidths bound i0 = Some i ↔
  ∃ k : nat,
    (k < fuel)%nat ∧ i = i0 + Z.of_nat k
    ∧ sumwidths / i <= bound
    ∧ ∀ j : nat, (j < k)%nat → sumwidths / (i0 + Z.of_nat j) > bound.
Proof.
  revert i0. induction fuel as [|fuel IH]; intros i0; simpl.
  - split; [discriminate|]. intros (k & Hk & _). lia.
  - destruct (Z.gtb_spec (sumwidths / i0) bound) as [Hgt|Hle].
    + rewrite IH. split.
      * intros (k & Hk & -> & Hi & Hall). exists (S k).
        split; [lia|]. split; [lia|].
        split; [replace (i0 + Z.of_nat (S k)) with (i0 + 1 + Z.of_nat k)
                  by lia; exact Hi|].
        intros [|j] Hj; [rewrite Z.add_0_r; lia|].
        replace (i0 + Z.of_nat (S j)) with (i0 + 1 + Z.of_nat j) by lia.
        apply Hall. lia.
      * intros (k & Hk & -> & Hi & Hall). destruct k as [|k].
        { rewrite Z.add_0_r in Hi. lia. }
        exists k. split; [lia|]. split; [lia|].
        split; [replace (i0 + 1 + Z.of_nat k) with (i0 + Z.of_nat (S k))
                  by lia; exact Hi|].
        intros j Hj.
        replace (i0 + 1 + Z.of_nat j) with (i0 + Z.of_nat (S j)) by lia.
        apply Hall. lia.
    + split.
      * intros [= <-]. exists 0%nat. rewrite Z.add_0_r.
        split; [lia|]. split; [reflexivity|]. split; [exact Hle|].
        intros j Hj. lia.
      * intros (k & Hk & -> & Hi & Hall). destruct k as [|k].
        { rewrite Z.add_0_r. reflexivity. }
        specialize (Hall 0%nat ltac:(lia)). rewrite Z.add_0_r in Hall. lia.
Qed.

(** The core pass raises when it is asked for no line at all, at its first
    division, and only then. *)
Lemma core_zero triples width soft justify :
  core triples width soft 0 justify = Raise ZeroDivisionError.
Proof. reflexivity. Qed.

Lemma core_Ok triples width soft n justify :
  n ≠ 0 →
  core triples width soft n justify
  = Ok (lines_of triples width soft n justify).
Proof.
  intros Hn. unfold subtitle_text_layout_core, core_lines.
  rewrite (proj2 (Z.eqb_neq n 0) Hn). reflexivity.
Qed.

Lemma core_Ok_inv triples width soft n justify rv :
  core triples width soft n justify = Ok rv →
  n ≠ 0 ∧ rv = lines_of triples width soft n justify.
Proof.
  intros H. destruct (Z.eq_dec n 0) as [->|Hn].
  - rewrite core_zero in H. discriminate H.
  - rewrite core_Ok in H by exact Hn. injection H as <-. auto.
Qed.

(** One triple adds at most one line, and a space adds none. *)
Lemma core_step_lines width soft justify st t :
  (length (c_lines (core_step f_size rtl log2vis width soft justify st t))
   <= length (c_lines st) + (if is_space t then 0 else 1))%nat.
Proof.
  unfold core_step, is_space.
  destruct (tkind t); cbv zeta; eval_kinds;
    repeat match goal with
           | |- context [if ?b then _ else _] => destruct b
           end;
    cbn [c_lines]; rewrite ?length_app; simpl; lia.
Qed.

Lemma core_fold_lines width soft justify triples :
  ∀ st,
    (length (c_lines (fold_left (core_step f_size rtl log2vis width soft
                                   justify) triples st))
     <= length (c_lines st)
        + length (List.filter (fun t => negb (is_space t)) triples))%nat.
Proof.
  induction triples as [|t triples IH]; intros st; [simpl; lia|].
  cbn [fold_left List.filter].
  pose proof (IH (core_step f_size rtl log2vis width soft justify st t))
    as H.
  pose proof (core_step_lines width soft justify st t) as Hs.
  destruct (is_space t); simpl in *; lia.
Qed.

(** The line count of the core pass lies between one and one more than
    the triples that are not spaces. *)
Lemma core_lines_length triples width soft n justify :
  (1 <= length (lines_of triples width soft n justify)
     <= 1 + length (List.filter (fun t => negb (is_space t)) triples))%nat.
Proof.
  unfold core_lines. rewrite length_map, length_app.
  pose proof (core_fold_lines width soft justify triples
                (mkCore [] [] (soft * n) (soft * n / n) n)) as H.
  simpl in *. lia.
Qed.

Lemma core_lines_bound triples width soft n justify rv :
  core triples width soft n justify = Ok rv →
  (1 <= length rv
     <= 1 + length (List.filter (fun t => negb (is_space t)) triples))%nat.
Proof.
  intros H. apply core_Ok_inv in H as [_ ->]. apply core_lines_length.
Qed.

(** The retry loop stops at the first [i], counting up from [i0], for
    which the core pass produces [i] lines, and returns those lines. *)
Lemma retry_spec (triples : list triple) (width : Z) (justify : bool)
    (sumwidths i0 : Z) (fuel : nat) (rv : list (list triple)) :
  retry f_size rtl log2vis fuel triples width justify sumwidths i0
  = Some (Ok rv) ↔
  ∃ k : nat,
    (k < fuel)%nat
    ∧ core triples width (sumwidths / (i0 + Z.of_nat k))
        (i0 + Z.of_nat k) justify = Ok rv
    ∧ Z.of_nat (length rv) = i0 + Z.of_nat k
    ∧ ∀ j : nat,
        (j < k)%nat →
        ∃ rvj,
          core triples width (sumwidths / (i0 + Z.of_nat j))
            (i0 + Z.of_nat j) justify = Ok rvj
          ∧ Z.of_nat (length rvj) ≠ i0 + Z.of_nat j.
Proof.
  revert i0. induction fuel as [|fuel IH]; intros i0; cbn [retry].
  - split; [discriminate|]. intros (k & Hk & _). lia.
  - destruct (core triples width (sumwidths / i0) i0 justify)
      as [rv0|e] eqn:Hc.
    + destruct (Z.eqb_spec (Z.of_nat (length rv0)) i0) as [Heq|Hne].
      * split.
        -- intros [= <-]. exists 0%nat. rewrite Z.add_0_r.
           split; [lia|]. split; [exact Hc|]. split; [exact Heq|].
           intros j Hj. lia.
        -- intros (k & Hk & Hrv & Hi & Hall). destruct k as [|k].
           { rewrite Z.add_0_r, Hc in Hrv. injection Hrv as ->.
             reflexivity. }
           destruct (Hall 0%nat ltac:(lia)) as (rvj & Hj & Hnj).
           rewrite Z.add_0_r in Hj, Hnj. rewrite Hc in Hj.
           injection Hj as <-. contradiction.
      * rewrite IH. split.
        -- intros (k & Hk & Hrv & Hi & Hall). exists (S k).
           replace (i0 + Z.of_nat (S k)) with (i0 + 1 + Z.of_nat k) by lia.
           split; [lia|]. split; [exact Hrv|]. split; [exact Hi|].
           intros [|j] Hj.
           ++ rewrite Z.add_0_r. exists rv0. split; [exact Hc|exact Hne].
           ++ replace (i0 + Z.of_nat (S j)) with (i0 + 1 + Z.of_nat j)
                by lia.
              apply Hall. lia.
        -- intros (k & Hk & Hrv & Hi & Hall). destruct k as [|k].
           { rewrite Z.add_0_r in Hrv, Hi. rewrite Hc in Hrv.
             injection Hrv as <-. contradiction. }
           exists k.
           replace (i0 + 1 + Z.of_nat k) with (i0 + Z.of_nat (S k)) by lia.
           split; [lia|]. split; [exact Hrv|]. split; [exact Hi|].
           intros j Hj.
           replace (i0 + 1 + Z.of_nat j) with (i0 + Z.of_nat (S j)) by lia.
           apply Hall. lia.
    + split; [discriminate|].
      intros (k & Hk & Hrv & Hi & Hall). destruct k as [|k].
      * rewrite Z.add_0_r, Hc in Hrv. discriminate Hrv.
      * destruct (Hall 0%nat ltac:(lia)) as (rvj & Hj & _).
        rewrite Z.add_0_r, Hc in Hj. discriminate Hj.
Qed.

(** Entered with a line count of at least one, as [subtitle_text_layout]
    enters it, the retry loop raises nothing. *)
Lemma retry_no_raise (triples : list triple) (width : Z) (justify : bool)
    (sumwidths : Z) (fuel : nat) (e : exn) :
  ∀ i0, 1 <= i0 →
    retry f_size rtl log2vis fuel triples width justify sumwidths i0
    ≠ Some (Raise e).
Proof.
  induction fuel as [|fuel IH]; intros i0 Hi; cbn [retry]; [discriminate|].
  rewrite core_Ok by lia.
  destruct (Z.of_nat (length _) =? i0); [discriminate|].
  apply IH. lia.
Qed.

(** The fill of one paragraph, as the code has it.  The estimate of the
    line count and the retry loop return within [fuel] rounds each exactly
    when the least [i0 >= 1] with
    [sumwidths / i0 <= min(width, softwidth)] and the least [i >= i0] for
    which the core pass produces [i] lines are found within these rounds;
    the lines returned are those of the core pass for that [i], so there
    are [i] of them, and they depend on the input only.  Nothing bounds
    [i], and no [i] need exist. *)
Lemma subtitle_fill_least (triples : list triple)
    (width softwidth : Z) (justify : bool) (fuel : nat)
    (rv : list (list triple)) :
  let sumwidths := layout_width f_size rtl log2vis triples justify in
  subtitle_fill f_size rtl log2vis fuel triples width softwidth justify
  = Some (Ok rv) ↔
  ∃ k0 k : nat,
    let i0 := 1 + Z.of_nat k0 in
    let i := i0 + Z.of_nat k in
    (k0 < fuel)%nat ∧ (k < fuel)%nat
    ∧ sumwidths / i0 <= Z.min width softwidth
    ∧ (∀ j : nat, (j < k0)%nat →
         sumwidths / (1 + Z.of_nat j) > Z.min width softwidth)
    ∧ core triples width (sumwidths / i) i justify = Ok rv
    ∧ Z.of_nat (length rv) = i
    ∧ ∀ j : nat,
        (j < k)%nat →
        ∃ rvj,
          core triples width (sumwidths / (i0 + Z.of_nat j))
            (i0 + Z.of_nat j) justify = Ok rvj
          ∧ Z.of_nat (length rvj) ≠ i0 + Z.of_nat j.
Proof.
  cbv zeta. unfold subtitle_fill.
  set (sumwidths := layout_width f_size rtl log2vis triples justify).
  split.
  - destruct (estimate fuel sumwidths (Z.min width softwidth) 1)
      as [i0|] eqn:Hest; [|discriminate].
    cbn [mbind option_bind]. intros Hretry.
    apply estimate_spec in Hest as (k0 & Hk0 & -> & Hle & Hgt).
    apply retry_spec in Hretry as (k & Hk & Hrv & Hlen & Hne).
    exists k0, k. auto 10.
  - intros (k0 & k & Hk0 & Hk & Hle & Hgt & Hrv & Hlen & Hne).
    assert (Hest : estimate fuel sumwidths (Z.min width softwidth) 1
                   = Some (1 + Z.of_nat k0)).
    { apply estimate_spec. exists k0. auto. }
    rewrite Hest. cbn [mbind option_bind].
    apply retry_spec. exists k. auto.
Qed.

(** The fill of one paragraph raises nothing. *)
Lemma subtitle_fill_no_raise (triples : list triple)
    (width softwidth : Z) (justify : bool) (fuel : nat) (e : exn) :
  subtitle_fill f_size rtl log2vis fuel triples width softwidth justify
  ≠ Some (Raise e).
Proof.
  unfold subtitle_fill.
  destruct (estimate fuel _ _ 1) as [i0|] eqn:Hest; [|discriminate].
  cbn [mbind option_bind].
  apply estimate_spec in Hest as (k0 & _ & -> & _).
  apply retry_no_raise. lia.
Qed.
End SubtitleProperties.

Lemma subtitle_fill_least_witness :
  subtitle_fill unit_font false id 5
    [a_word "aaaaaaa"; a_space; a_word "bbbbbbb"; a_space; a_word "c"]
    8 8 false
  = Some (Ok [[a_word "aaaaaaa"]; [a_word "bbbbbbb"]; [a_word "c"]]).
Proof.
  apply (proj2 (subtitle_fill_least unit_font false id
                  [a_word "aaaaaaa"; a_space; a_word "bbbbbbb"; a_space;
                   a_word "c"] 8 8 false 5 _)).
  exists 1%nat, 1%nat. cbv zeta.
  split; [lia|]. split; [lia|].
  split; [vm_compute; discriminate|].
  split; [intros [|j] Hj; [vm_compute; reflexivity|lia]|].
  split; [vm_compute; reflexivity|].
  split; [reflexivity|].
  intros [|j] Hj; [|lia].
  eexists. split; [vm_compute; reflexivity|]. vm_compute. discriminate.
Defined.

(** The paragraph [four_words] in a font of one unit per character, hard
    width 10 and soft width 9: the widths add up to 41, so the estimate of
    the line count is 5. *)
Lemma four_words_estimate fuel i :
  estimate fuel 41 9 1 = Some i → i = 5.
Proof.
  intros H. apply estimate_spec in H as (k & _ & -> & Hle & Hgt).
  destruct k as [|[|[|[|[|k]]]]];
    [exfalso; apply Hle; reflexivity ..|reflexivity|].
  specialize (Hgt 4%nat ltac:(lia)). vm_compute in Hgt. discriminate Hgt.
Qed.

(** Asked for 5 lines the core pass gives 4, one per word; asked for more
    it cannot give more than 5, the four words and an empty line.  So the
    retry loop never meets its line count. *)
Lemma four_words_fill fuel :
  subtitle_fill unit_font false id fuel four_words 10 9 false = None.
Proof.
  unfold subtitle_fill.
  assert (Hlw : layout_width unit_font false id four_words false = 41)
    by (vm_compute; reflexivity).
  rewrite Hlw. change (Z.min 10 9) with 9.
  destruct (estimate fuel 41 9 1) as [i|] eqn:Hest; [|reflexivity].
  apply four_words_estimate in Hest as ->. cbn [mbind option_bind].
  destruct (retry unit_font false id fuel four_words 10 false 41 5)
    as [[rv|e]|] eqn:Hretry; [| |reflexivity]; exfalso.
  - apply retry_spec in Hretry as (k & _ & Hcore & Hlen & _).
    destruct k as [|k].
    + assert (H5 : subtitle_text_layout_core unit_font false id four_words
                     10 (41 / (5 + Z.of_nat 0)) (5 + Z.of_nat 0) false
                   = Ok [[a_word "aaaaaaaa"]; [a_word "bbbbbbbbbb"];
                         [a_word "cccccccccc"]; [a_word "dddddddddd"]])
        by (vm_compute; reflexivity).
      rewrite H5 in Hcore. injection Hcore as <-.
      vm_compute in Hlen. discriminate Hlen.
    + apply core_lines_bound in Hcore as [_ Hub].
      assert (Hm : length (List.filter (fun t => negb (is_space t))
                             four_words) = 4%nat)
        by (vm_compute; reflexivity).
      rewrite Hm in Hub. lia.
  - revert Hretry. apply retry_no_raise. lia.
Qed.

(** C4.  The retry loop of [subtitle_text_layout] has no bound and need not
    end.  The text ["aaaaaaaa bbbbbbbbbb cccccccccc dddddddddd"], four
    words and three spaces in one style, in a font of one unit per
    character, at width 10 with [style.subtitle_width] 0.9 and so a soft
    width of 9: every word fits the width, the estimate of the line count
    is 5, the core pass gives 4 lines for 5 and at most 5 lines for any
    larger count.  No number of rounds lets [subtitle_text_layout]
    return or raise, and [Text.layout] with the subtitle layout does not
    get past it. *)
Theorem subtitle_layout_hangs :
  (∀ fuel,
     subtitle_text_layout unit_font false id fuel four_words 10 9 false
     = None)
  ∧ (∃ st,
       layout_tags plain_env
         (text_tokenizer (U "aaaaaaaa bbbbbbbbbb cccccccccc dddddddddd"))
       = Ok st
       ∧ triples st = four_words)
  ∧ ∀ fuel,
      Text_layout unit_font false id fuel plain_env
        (mkLayoutStyle true 0 0 false 9)
        (text_tokenizer (U "aaaaaaaa bbbbbbbbbb cccccccccc dddddddddd")) 10
      = None.
Proof.
  assert (Hsub : ∀ fuel,
            subtitle_text_layout unit_font false id fuel four_words 10 9
              false = None).
  { intros fuel. unfold subtitle_text_layout.
    assert (Hp : split_pars four_words = [four_words])
      by (vm_compute; reflexivity).
    rewrite Hp. cbn [foldl mbind option_bind]. unfold subtitle_paragraph.
    assert (He : explode unit_font false id 10 false four_words
                 = four_words) by (vm_compute; reflexivity).
    rewrite He, four_words_fill. reflexivity. }
  assert (Htags : ∃ st,
            layout_tags plain_env
              (text_tokenizer
                 (U "aaaaaaaa bbbbbbbbbb cccccccccc dddddddddd")) = Ok st
            ∧ triples st = four_words).
  { eexists. split; vm_compute; reflexivity. }
  split; [exact Hsub|]. split; [exact Htags|].
  intros fuel. destruct Htags as (st & Hst & Htr).
  unfold Text_layout. rewrite Hst. unfold text_layout.
  cbn [subtitle subtitle_width justify]. rewrite Htr. apply Hsub.
Qed.

(** C5.  [subtitle_text_layout] on two one-word paragraphs: two lines come
    back with three flags.  For the second paragraph the loop that appends
    [False] runs over the lines of all paragraphs so far, so the last line
    of the second paragraph has the flag [False] at its index. *)
Theorem subtitle_flags_not_parallel :
  subtitle_text_layout unit_font false id 8
    [a_word "a"; a_newline; a_word "b"] 100 100 false
  = Some (Ok ([[a_word "a"]; [a_word "b"]], [true; false; true])).
Proof. vm_compute. reflexivity. Qed.

(** * Further properties *)

(** ** The tokenizer on marked-up text *)

Lemma span_fst_forall p s : forallb p (span p s).1 = true.
Proof.
  induction s as [|c s IH]; simpl; [reflexivity|].
  destruct (p c) eqn:Hc; [|reflexivity].
  destruct (span p s) as [a b]. simpl in *. rewrite Hc. exact IH.
Qed.

(** [span] stops where the predicate first fails. *)
Lemma span_app_stop p a b :
  forallb p a = true → head (p <$> b) ≠ Some true →
  span p (a ++ b) = (a, b).
Proof.
  intros Ha Hb. induction a as [|c a IH]; simpl in *.
  - destruct b as [|c b]; [reflexivity|]. simpl in *.
    destruct (p c); [congruence|reflexivity].
  - apply andb_prop in Ha as [Hc Ha]. rewrite Hc, (IH Ha). reflexivity.
Qed.

Lemma span_all p s : forallb p s = true → span p s = (s, []).
Proof.
  intros H. rewrite <- (app_nil_r s) at 1.
  apply span_app_stop; [exact H|discriminate].
Qed.

Lemma markup_tail c s : c ≠ c_lbrace → markup (c :: s) → markup s.
Proof.
  intros Hc H. inversion H; subst; [assumption|congruence|congruence].
Qed.

Lemma span_markup p s :
  (∀ c, p c = true → c ≠ c_lbrace) → markup s → markup (span p s).2.
Proof.
  intros Hp. induction s as [|c s IH]; intros Hs; simpl; [exact Hs|].
  destruct (p c) eqn:Hc; [|exact Hs].
  specialize (IH (markup_tail c s (Hp c Hc) Hs)).
  destruct (span p s) as [a b]. exact IH.
Qed.

Lemma word_char_not_brace c : word_char c = true → c ≠ c_lbrace.
Proof.
  unfold word_char. intros H ->. rewrite N.eqb_refl, orb_true_r in H.
  discriminate H.
Qed.

(** On marked-up text every position starts a match, the token read there
    stands for the text the match took, and marked-up text is left. *)
Lemma western_match_markup c s :
  markup (c :: s) →
  ∃ g t r,
    western_match (c :: s) = Some (g, t, r)
    ∧ source_of (token_of_match (g, t)) ++ r = c :: s
    ∧ (length r <= length s)%nat
    ∧ markup r.
Proof.
  intros Hm. inversion Hm as [|c' s' Hc Hs|name s' Hname Hnb Hs|s' Hs]; subst.
  - (* a character that is no left brace *)
    unfold western_match.
    assert (Hlb : (c =? c_lbrace)%N = false) by (apply N.eqb_neq; exact Hc).
    destruct (match_space (c :: s)) as [[t r]|] eqn:Hsp.
    { unfold match_space in Hsp.
      destruct ((c =? c_space)%N || (c =? c_zwsp)%N); [|discriminate].
      injection Hsp as <- <-. exists g_space, [c], s. simpl. auto. }
    replace (match_tag (c :: s)) with (@None (ustring * ustring))
      by (unfold match_tag; rewrite Hlb; reflexivity).
    replace (match_untag (c :: s)) with (@None (ustring * ustring))
      by (unfold match_untag; destruct s; [reflexivity|];
          rewrite Hlb; reflexivity).
    destruct (match_newline (c :: s)) as [[t r]|] eqn:Hnl.
    { unfold match_newline in Hnl.
      destruct (c =? c_newline)%N; [|discriminate].
      injection Hnl as <- <-. exists g_newline, [c], s. simpl. auto. }
    assert (Hnsp : (c =? c_space)%N = false).
    { unfold match_space in Hsp.
      destruct (c =? c_space)%N; [discriminate|reflexivity]. }
    assert (Hnnl : (c =? c_newline)%N = false).
    { unfold match_newline in Hnl.
      destruct (c =? c_newline)%N; [discriminate|reflexivity]. }
    unfold match_word. fold word_char.
    pose proof (span_app word_char s) as Happ.
    pose proof (span_rest_length word_char s) as Hlen.
    pose proof (span_markup word_char s word_char_not_brace Hs) as Hmr.
    simpl.
    replace (word_char c) with true
      by (unfold word_char; rewrite Hnsp, Hnnl, Hlb; reflexivity).
    destruct (span word_char s) as [a b]. simpl in *.
    exists g_word, (c :: a), b. cbn [token_of_match source_of].
    unfold str_eqb. rewrite bool_decide_eq_false_2 by congruence.
    simpl. rewrite Happ. auto.
  - (* a tag *)
    exists g_tag, name, s'. unfold western_match.
    change (match_space (c_lbrace :: name ++ c_rbrace :: s'))
      with (@None (ustring * ustring)).
    unfold match_tag. rewrite N.eqb_refl. fold not_brace.
    rewrite (span_app_stop not_brace name (c_rbrace :: s') Hnb)
      by (simpl; discriminate).
    destruct name as [|n name]; [congruence|].
    rewrite N.eqb_refl. split; [reflexivity|].
    split; [simpl; rewrite <- app_assoc; reflexivity|].
    split; [simpl; rewrite length_app; simpl; lia|exact Hs].
  - (* a doubled left brace *)
    exists g_untag, [c_lbrace; c_lbrace], s'. unfold western_match.
    change (match_space (c_lbrace :: c_lbrace :: s'))
      with (@None (ustring * ustring)).
    change (match_tag (c_lbrace :: c_lbrace :: s'))
      with (@None (ustring * ustring)).
    split; [reflexivity|]. split; [reflexivity|].
    split; [simpl; lia|exact Hs].
Qed.

Lemma finditer_markup fuel s :
  (length s <= fuel)%nat → markup s →
  concat (map source_of (map token_of_match (finditer fuel s))) = s.
Proof.
  revert s. induction fuel as [|fuel IH]; intros s Hlen Hs.
  - destruct s; [reflexivity|simpl in Hlen; lia].
  - destruct s as [|c s]; [reflexivity|].
    destruct (western_match_markup c s Hs)
      as (g & t & r & Hm & Happ & Hr & Hmr).
    cbn [finditer]. rewrite Hm. cbn [map concat].
    rewrite IH; [exact Happ|simpl in Hlen; lia|exact Hmr].
Qed.

(** X1.  On text in which every left brace starts a tag or is doubled the
    tokenizer loses nothing: writing every tag token back with its braces,
    every word [{] as a doubled brace and every other token as its payload
    gives the text. *)
Theorem text_tokenizer_lossless s :
  markup s → concat (map source_of (text_tokenizer s)) = s.
Proof.
  intros Hs. unfold text_tokenizer. apply finditer_markup; [lia|exact Hs].
Qed.

Lemma text_tokenizer_lossless_witness :
  concat (map source_of (text_tokenizer (U "a {b}c{/b} {{d")))
  = U "a {b}c{/b} {{d".
Proof.
  apply text_tokenizer_lossless.
  apply markup_char; [discriminate|]. apply markup_char; [discriminate|].
  apply (markup_tag (U "b")); [discriminate|reflexivity|].
  apply markup_char; [discriminate|].
  apply (markup_tag (U "/b")); [discriminate|reflexivity|].
  apply markup_char; [discriminate|].
  apply markup_untag. apply markup_char; [discriminate|]. constructor.
Defined.

(** What one match yields has the shape of its kind, and the match takes at
    least one character. *)
Lemma western_match_shape s g t r :
  western_match s = Some (g, t, r) →
  token_shape (token_of_match (g, t)) ∧ (length r < length s)%nat.
Proof.
  unfold western_match. intros H.
  destruct (match_space s) as [[t0 r0]|] eqn:Hsp.
  { injection H as <- <- <-. unfold match_space in Hsp.
    destruct s as [|c s]; [discriminate|].
    destruct (c =? c_space)%N eqn:E1; simpl in Hsp.
    - injection Hsp as <- <-. apply N.eqb_eq in E1 as ->.
      split; [left; reflexivity|simpl; lia].
    - destruct (c =? c_zwsp)%N eqn:E2; [|discriminate].
      injection Hsp as <- <-. apply N.eqb_eq in E2 as ->.
      split; [right; reflexivity|simpl; lia]. }
  destruct (match_tag s) as [[t0 r0]|] eqn:Htag.
  { injection H as <- <- <-. unfold match_tag in Htag.
    destruct s as [|c s]; [discriminate|].
    destruct (c =? c_lbrace)%N; [|discriminate]. fold not_brace in Htag.
    pose proof (span_fst_forall not_brace s) as Hall.
    pose proof (span_app not_brace s) as Happ.
    destruct (span not_brace s) as [name after]. simpl in *.
    destruct name as [|n name]; [discriminate|].
    destruct after as [|c' rest]; [discriminate|].
    destruct (c' =? c_rbrace)%N; [|discriminate].
    injection Htag as <- <-. split; [split; [discriminate|exact Hall]|].
    rewrite <- Happ. simpl. rewrite length_app. simpl. lia. }
  destruct (match_untag s) as [[t0 r0]|] eqn:Hun.
  { injection H as <- <- <-. unfold match_untag in Hun.
    destruct s as [|c [|c' s]]; try discriminate.
    destruct ((c =? c_lbrace)%N && (c' =? c_lbrace)%N); [|discriminate].
    injection Hun as <- <-. split; [left; reflexivity|simpl; lia]. }
  destruct (match_newline s) as [[t0 r0]|] eqn:Hnl.
  { injection H as <- <- <-. unfold match_newline in Hnl.
    destruct s as [|c s]; [discriminate|].
    destruct (c =? c_newline)%N eqn:E; [|discriminate].
    injection Hnl as <- <-. apply N.eqb_eq in E as ->.
    split; [reflexivity|simpl; lia]. }
  destruct (match_word s) as [[t0 r0]|] eqn:Hw; [|discriminate].
  injection H as <- <- <-. unfold match_word in Hw. fold word_char in Hw.
  pose proof (span_fst_forall word_char s) as Hall.
  pose proof (span_app word_char s) as Happ.
  destruct (span word_char s) as [w rest]. simpl in *.
  destruct w as [|c w]; [discriminate|]. injection Hw as <- <-.
  split.
  - right. split; [discriminate|]. split; [exact Hall|].
    rewrite <- Happ in Hsp. simpl in Hsp. unfold match_space in Hsp.
    split; intros [= ->].
    + rewrite N.eqb_refl in Hsp. discriminate Hsp.
    + rewrite N.eqb_refl, orb_true_r in Hsp. discriminate Hsp.
  - rewrite <- Happ. simpl. rewrite length_app. lia.
Qed.

Lemma finditer_shape fuel s :
  Forall token_shape (map token_of_match (finditer fuel s)).
Proof.
  revert s. induction fuel as [|fuel IH]; intros s; [constructor|].
  destruct s as [|c s]; [constructor|]. cbn [finditer].
  destruct (western_match (c :: s)) as [[[g t] r]|] eqn:Hm; [|apply IH].
  cbn [map]. constructor; [|apply IH].
  exact (proj1 (western_match_shape _ _ _ _ Hm)).
Qed.

(** X2.  Every token the tokenizer yields has the shape of its kind: a
    space token is one space or one zero-width space, a newline token is one
    newline, a tag token is a non-empty name without braces, and a word
    token is the brace [{] or a non-empty run without space, newline and
    left brace that does not begin with a zero-width space; no token has
    another kind. *)
Theorem text_tokenizer_shape s : Forall token_shape (text_tokenizer s).
Proof. apply finditer_shape. Qed.

(** X3.  A non-empty text without space, newline and left brace that does
    not begin with a zero-width space is one word token: zero-width spaces
    inside it do not break it. *)
Theorem text_tokenizer_one_word s :
  s ≠ [] → forallb word_char s = true → head s ≠ Some c_zwsp →
  text_tokenizer s = [(word, s)].
Proof.
  intros Hne Hall Hz. destruct s as [|c s]; [congruence|].
  unfold text_tokenizer. cbn [length finditer].
  pose proof Hall as Hall'. simpl in Hall'.
  apply andb_prop in Hall' as [Hc _].
  unfold word_char in Hc. apply negb_true_iff in Hc.
  apply orb_false_elim in Hc as [Hc Hlb].
  apply orb_false_elim in Hc as [Hsp Hnl].
  assert (Hzw : (c =? c_zwsp)%N = false).
  { apply N.eqb_neq. intros ->. apply Hz. reflexivity. }
  unfold western_match.
  replace (match_space (c :: s)) with (@None (ustring * ustring))
    by (unfold match_space; rewrite Hsp, Hzw; reflexivity).
  replace (match_tag (c :: s)) with (@None (ustring * ustring))
    by (unfold match_tag; rewrite Hlb; reflexivity).
  replace (match_untag (c :: s)) with (@None (ustring * ustring))
    by (unfold match_untag; destruct s; [reflexivity|];
        rewrite Hlb; reflexivity).
  replace (match_newline (c :: s)) with (@None (ustring * ustring))
    by (unfold match_newline; rewrite Hnl; reflexivity).
  unfold match_word. fold word_char. rewrite (span_all _ _ Hall).
  destruct (length s); reflexivity.
Qed.

Lemma text_tokenizer_one_word_witness :
  text_tokenizer (U "don't" ++ [c_zwsp] ++ U "stop")
  = [(word, U "don't" ++ [c_zwsp] ++ U "stop")].
Proof.
  apply text_tokenizer_one_word; [discriminate|reflexivity|discriminate].
Defined.

(** ** The validator accepts the balanced strings only *)

Lemma balanced_app a b : balanced a → balanced b → balanced (a ++ b).
Proof.
  induction 1 as [|k t toks Hk _ IH|t n toks Hn Hb _ IH
                  |t n t' inner toks Hn Hb Ht Hi _ _ IHt]; intros Hbal.
  - exact Hbal.
  - rewrite <- app_comm_cons. apply balanced_text; auto.
  - rewrite <- app_comm_cons. apply (balanced_single t n); auto.
  - rewrite <- app_comm_cons, <- app_assoc, <- app_comm_cons.
    apply (balanced_scope t n); auto.
Qed.

(** A balanced stretch in front changes nothing for the open scopes. *)
Lemma closes_balanced_front st b toks :
  balanced b → closes st toks → closes st (b ++ toks).
Proof.
  intros Hb H. destruct H as [toks Hbal|st n inner t' rest Hi Ht Hr].
  - apply closes_nil. apply balanced_app; assumption.
  - rewrite app_assoc. apply closes_snoc; [|assumption|assumption].
    apply balanced_app; assumption.
Qed.

Lemma check_tokens_closes toks :
  ∀ st, check_tokens toks st = None → closes st toks.
Proof.
  induction toks as [|[k t] toks IH]; intros st H.
  - cbn [check_tokens] in H. destruct st; [|discriminate H].
    apply closes_nil. constructor.
  - cbn [check_tokens] in H.
    destruct (kind_eqb k tag) eqn:Hk; cbn [negb] in H.
    2:{ apply (closes_balanced_front st [(k, t)] toks); [|apply IH; exact H].
        apply balanced_text; [|constructor].
        unfold kind_eqb in Hk. apply bool_decide_eq_false_1 in Hk. exact Hk. }
    unfold kind_eqb in Hk. apply bool_decide_eq_true_1 in Hk. subst k.
    pose proof (strip_args_tag_named t) as Hn.
    destruct (strip_args t) as [|c n] eqn:Hs.
    + (* a tag whose name is empty *)
      destruct (text_tags !! []) as [b|] eqn:Hb; [|discriminate H].
      destruct b.
      * specialize (IH _ H). inversion IH as [|st0 n0 inner t' rest Hi Ht Hr Hst].
        { destruct st; discriminate. }
        apply app_inj_tail in Hst as [-> ->].
        replace ((tag, t) :: inner ++ (tag, t') :: rest)
          with (((tag, t) :: inner ++ [(tag, t')]) ++ rest)
          by (simpl; rewrite <- app_assoc; reflexivity).
        apply closes_balanced_front; [|exact Hr].
        apply (balanced_scope t [] t' inner []); auto; constructor.
      * apply (closes_balanced_front st [(tag, t)] toks); [|apply IH; exact H].
        apply (balanced_single t []); [exact Hn|exact Hb|constructor].
    + destruct (c =? c_slash)%N eqn:Hsl.
      * (* a closing tag *)
        apply N.eqb_eq in Hsl. subst c.
        destruct st as [|top st] using rev_ind; [discriminate H|].
        rewrite last_snoc in H.
        change (drop 1 (c_slash :: n)) with n in H. unfold str_eqb in H.
        destruct (bool_decide (top = n)) eqn:Htop; [|discriminate H].
        apply bool_decide_eq_true_1 in Htop. subst top.
        cbn [negb] in H. rewrite removelast_last in H.
        apply (closes_snoc st n [] t toks); [constructor|exact Hn|].
        apply IH. exact H.
      * destruct (text_tags !! (c :: n)) as [b|] eqn:Hb; [|discriminate H].
        destruct b.
        -- specialize (IH _ H).
           inversion IH as [|st0 n0 inner t' rest Hi Ht Hr Hst].
           { destruct st; discriminate. }
           apply app_inj_tail in Hst as [-> ->].
           replace ((tag, t) :: inner ++ (tag, t') :: rest)
             with (((tag, t) :: inner ++ [(tag, t')]) ++ rest)
             by (simpl; rewrite <- app_assoc; reflexivity).
           apply closes_balanced_front; [|exact Hr].
           apply (balanced_scope t (c :: n) t' inner []); auto; constructor.
        -- apply (closes_balanced_front st [(tag, t)] toks);
             [|apply IH; exact H].
           apply (balanced_single t (c :: n)); [exact Hn|exact Hb|constructor].
Qed.

(** X4.  [check_text_tags] returns [None] exactly on the strings whose
    tokens are balanced, a tag counting by its name, the part in front of
    its argument. *)
Theorem check_text_tags_None_iff s :
  check_text_tags s = None ↔ balanced (text_tokenizer s).
Proof.
  unfold check_text_tags. split.
  - intros H. apply check_tokens_closes in H. inversion H as [toks Hb|].
    + exact Hb.
    + destruct st; discriminate.
  - intros Hb. rewrite <- (app_nil_r (text_tokenizer s)).
    rewrite (check_tokens_balanced _ Hb). reflexivity.
Qed.

Lemma check_text_tags_None_iff_witness :
  balanced (text_tokenizer (U "{color=#f00}{b}x{/b}y{/color}{w=2}")).
Proof.
  apply (proj1 (check_text_tags_None_iff _)). vm_compute. reflexivity.
Defined.

(** ** [color]: short and long forms *)

Section ColorForms.
Variable int_ : ustring → Z → result Z.
Hypothesis int_hex : ∀ ds,
  ds ≠ [] → forallb is_hexdigit ds = true →
  int_ ds 16 = Ok (digits_value 16 ds).

(** X5.  A colour of three or four hex digits is the colour of the six or
    eight digits obtained by writing every digit twice. *)
Theorem color_short_is_doubled r g b a :
  is_hexdigit r = true → is_hexdigit g = true → is_hexdigit b = true →
  is_hexdigit a = true →
  color int_ [c_hash; r; g; b] = color int_ [c_hash; r; r; g; g; b; b]
  ∧ color int_ [r; g; b] = color int_ [r; r; g; g; b; b]
  ∧ color int_ [c_hash; r; g; b; a]
    = color int_ [c_hash; r; r; g; g; b; b; a; a]
  ∧ color int_ [r; g; b; a] = color int_ [r; r; g; g; b; b; a; a].
Proof.
  intros Hr Hg Hb Ha.
  pose proof (hexdigit_not_hash r Hr) as Hh.
  cbn [color]. rewrite N.eqb_refl, Hh.
  rewrite !(int_one int_ int_hex) by assumption.
  rewrite !(int_two int_ int_hex) by assumption.
  cbn [mbind result_bind].
  repeat apply conj; do 2 f_equal; try (repeat f_equal; lia).
Qed.

(** X6.  Every component of a colour read from hex digits lies between 0
    and 255. *)
Theorem color_range s ds r g b a :
  s = ds ∨ s = c_hash :: ds →
  forallb is_hexdigit ds = true →
  color int_ s = Ok (r, g, b, a) →
  0 <= r <= 255 ∧ 0 <= g <= 255 ∧ 0 <= b <= 255 ∧ 0 <= a <= 255.
Proof.
  intros Hs Hall.
  assert (Hhash : color int_ (c_hash :: ds) = Ok (r, g, b, a) →
    0 <= r <= 255 ∧ 0 <= g <= 255 ∧ 0 <= b <= 255 ∧ 0 <= a <= 255).
  { do 9 (try destruct ds as [|? ds]); simpl in Hall;
      repeat match goal with
             | H : _ && _ = true |- _ => apply andb_prop in H; destruct H
             end;
      cbn [color]; rewrite N.eqb_refl; try discriminate;
      repeat (try rewrite (int_one int_ int_hex) by assumption;
              try rewrite (int_two int_ int_hex) by assumption;
              cbn [mbind result_bind]);
      intros [= <- <- <- <-];
      repeat match goal with
             | H : is_hexdigit ?d = true |- _ =>
                 apply hexval_range in H
             end; lia. }
  destruct Hs as [-> | ->]; [|exact Hhash].
  destruct ds as [|d ds']; [discriminate|].
  simpl in Hall. pose proof Hall as Hall'.
  apply andb_prop in Hall' as [Hd _].
  intros Hc. apply Hhash. rewrite <- Hc. cbn [color].
  rewrite N.eqb_refl, (hexdigit_not_hash d Hd). reflexivity.
Qed.
End ColorForms.

Lemma color_short_is_doubled_witness :
  color int_digits (U "#fa0") = color int_digits (U "#ffaa00").
Proof.
  exact (proj1 (color_short_is_doubled int_digits int_digits_hex
                  102 97 48 48 eq_refl eq_refl eq_refl eq_refl)).
Defined.

Lemma color_range_witness :
  0 <= 192 <= 255 ∧ 0 <= 192 <= 255 ∧ 0 <= 192 <= 255 ∧ 0 <= 255 <= 255.
Proof.
  exact (color_range int_digits int_digits_hex (U "c0c0c0") (U "c0c0c0")
           192 192 192 255 (or_introl eq_refl) eq_refl eq_refl).
Defined.

(** ** [TextStyle.get_width]: any number of calls *)

Lemma get_width_calls_fold f_size ts texts :
  ∀ out st,
    no_text_key st →
    let r := fold_left
               (fun acc t =>
                  let r := TextStyle_get_width f_size ts t acc.2 in
                  (acc.1 ++ [r.1], r.2))
               texts (out, st) in
    r.1 = out ++ map (fun t => PInt (f_size ts t)) texts
    ∧ backend_log r.2 = backend_log st ++ texts
    ∧ no_text_key r.2.
Proof.
  induction texts as [|t texts IH]; intros out st Hst; cbv zeta.
  - simpl. rewrite !app_nil_r. auto.
  - cbn [fold_left fst snd].
    destruct (get_width_uncached f_size ts t st Hst) as (Hv & Hk & Hl).
    destruct (IH (out ++ [(TextStyle_get_width f_size ts t st).1])
                 (TextStyle_get_width f_size ts t st).2 Hk)
      as (H1 & H2 & H3).
    cbv zeta in H1, H2, H3. split; [|split; [|exact H3]].
    + rewrite H1, Hv. unfold get_width. cbn [map].
      rewrite <- app_assoc. reflexivity.
    + rewrite H2, Hl, <- app_assoc. reflexivity.
Qed.

Lemma get_width_calls_spec f_size ts texts st :
  no_text_key st →
  (get_width_calls f_size ts texts st).1
  = map (fun t => PInt (f_size ts t)) texts
  ∧ backend_log (get_width_calls f_size ts texts st).2
    = backend_log st ++ texts
  ∧ no_text_key (get_width_calls f_size ts texts st).2.
Proof.
  intros Hst. exact (get_width_calls_fold f_size ts texts [] st Hst).
Qed.

(** X7.  However many times [get_width] is called on a fresh [TextStyle],
    and however often a text repeats, every call returns the width the
    backend measures and every call reaches the backend: the backend sees
    the texts of the calls, one for one. *)
Theorem get_width_calls_backend f_size ts texts :
  (get_width_calls f_size ts texts ts_init).1
  = map (fun t => PInt (f_size ts t)) texts
  ∧ backend_log (get_width_calls f_size ts texts ts_init).2 = texts.
Proof.
  destruct (get_width_calls_spec f_size ts texts ts_init
              ts_init_no_text_key) as (H1 & H2 & _).
  split; [exact H1|exact H2].
Qed.

(** ** [layout_width] on a run of one style *)

Section LayoutWidthProperties.
Variable f_size : TextStyle → ustring → Z.
Variable rtl : bool.
Variable log2vis : ustring → ustring.

Lemma layout_width_fold_one_style ts triples rv cur :
  Forall (fun t => tstyle t = ts) triples →
  fold_left (layout_width_step f_size rtl log2vis false) triples
    (rv, Some ts, cur)
  = (rv, Some ts, cur ++ concat (map ttext triples)).
Proof.
  revert cur. induction triples as [|[[k ts'] i] triples IH]; intros cur H.
  - simpl. rewrite app_nil_r. reflexivity.
  - inversion H as [|? ? Hts Hrest]; subst. cbn [tstyle fst snd] in *.
    cbn [fold_left layout_width_step]. unfold is_. rewrite Nat.eqb_refl.
    cbn [negb andb]. rewrite (IH _ Hrest). cbn [map concat ttext snd].
    rewrite <- app_assoc. reflexivity.
Qed.

(** X8.  Without justification, triples that follow each other in one
    style are measured as one string: the width of the run is the width of
    the concatenation of its texts, not the sum of the widths of the
    triples. *)
Theorem layout_width_one_style ts triples :
  triples ≠ [] → Forall (fun t => tstyle t = ts) triples →
  layout_width f_size rtl log2vis triples false
  = get_width f_size ts
      (vis rtl log2vis (concat (map ttext triples))).
Proof.
  intros Hne H. destruct triples as [|[[k ts'] i] triples]; [congruence|].
  inversion H as [|? ? Hts Hrest]; subst. cbn [tstyle fst snd] in *.
  unfold layout_width. cbn [fold_left layout_width_step].
  rewrite (layout_width_fold_one_style _ _ _ _ Hrest). reflexivity.
Qed.
End LayoutWidthProperties.

Lemma layout_width_one_style_witness :
  layout_width unit_font false id [a_word "ab"; a_space; a_word "c"] false
  = get_width unit_font root_style
      (vis false id (concat (map ttext [a_word "ab"; a_space; a_word "c"]))).
Proof.
  apply layout_width_one_style; [discriminate|].
  repeat constructor.
Defined.

(** ** [greedy_text_layout]: flags, content, text that fits *)

Lemma concat_snoc {A} (l : list (list A)) (x : list A) :
  concat (l ++ [x]) = concat l ++ x.
Proof. rewrite concat_app. simpl. rewrite app_nil_r. reflexivity. Qed.

Lemma filter_content_pop l :
  List.filter is_content (pop_trailing_space l) = List.filter is_content l.
Proof.
  unfold pop_trailing_space.
  destruct l as [|a l] using rev_ind; [reflexivity|].
  rewrite last_snoc.
  destruct (kind_eqb (tkind a) space) eqn:E; [|reflexivity].
  rewrite removelast_last, List.filter_app. simpl.
  unfold is_content. rewrite E. simpl. rewrite app_nil_r. reflexivity.
Qed.

Lemma filter_content_concat_pop lines :
  List.filter is_content (concat (map pop_trailing_space lines))
  = List.filter is_content (concat lines).
Proof.
  induction lines as [|l lines IH]; [reflexivity|].
  simpl. rewrite !List.filter_app, IH, filter_content_pop. reflexivity.
Qed.

Section GreedyMore.
Variable f_size : TextStyle → ustring → Z.
Variable rtl : bool.
Variable log2vis : ustring → ustring.
Variables width first_indent rest_indent : Z.
Variable justify : bool.

Abbreviation gstep := (greedy_step f_size rtl log2vis width first_indent
                         rest_indent justify).
Abbreviation ginit := (mkGreedy [] [] [] (width - first_indent) true).

Lemma greedy_fold_flags triples :
  ∀ st,
    length (g_lines st) = length (g_lines_last st) →
    let st' := fold_left gstep triples st in
    length (g_lines st') = length (g_lines_last st')
    ∧ length (List.filter id (g_lines_last st'))
      = (length (List.filter id (g_lines_last st))
         + length (List.filter is_newline triples))%nat.
Proof.
  induction triples as [|t triples IH]; intros st Hlen; cbv zeta.
  - simpl. split; [exact Hlen|lia].
  - cbn [fold_left List.filter].
    assert (Hstep : length (g_lines (gstep st t))
                    = length (g_lines_last (gstep st t))
      ∧ length (List.filter id (g_lines_last (gstep st t)))
        = (length (List.filter id (g_lines_last st))
           + (if is_newline t then 1 else 0))%nat).
    { unfold greedy_step, is_newline, kind_eqb.
      destruct (tkind t) eqn:Hk; cbn [bool_decide decide_rel];
        repeat match goal with
               | |- context [if ?b then _ else _] =>
                   lazymatch b with
                   | bool_decide _ => fail
                   | _ => destruct b
                   end
               end;
        cbn [g_lines g_lines_last];
        rewrite ?length_app, ?List.filter_app, ?length_app; simpl;
        rewrite ?bool_decide_eq_false_2 by discriminate;
        rewrite ?bool_decide_eq_true_2 by reflexivity;
        split; lia. }
    destruct Hstep as [Hl Hc].
    destruct (IH (gstep st t) Hl) as [H1 H2]. cbv zeta in H1, H2.
    split; [exact H1|]. rewrite H2, Hc.
    destruct (is_newline t); simpl; lia.
Qed.

(** X9.  [greedy_text_layout] returns as many flags as lines; the last flag
    is [True], and the flags that are [True] are one more than the newline
    triples of the input. *)
Theorem greedy_flags (triples : list triple) :
  let r := greedy_text_layout f_size rtl log2vis triples width
             first_indent rest_indent justify in
  length r.1 = length r.2
  ∧ last r.2 = Some true
  ∧ length (List.filter id r.2)
    = S (length (List.filter is_newline triples)).
Proof.
  cbv zeta. unfold greedy_text_layout. cbn [fst snd].
  destruct (greedy_fold_flags triples ginit eq_refl) as [Hlen Hcnt].
  cbv zeta in Hlen, Hcnt.
  set (st := fold_left gstep triples ginit) in *.
  split; [rewrite !length_app, length_map, Hlen; reflexivity|].
  split; [apply last_snoc|].
  rewrite List.filter_app, length_app, Hcnt. simpl. lia.
Qed.

Lemma greedy_step_content st t :
  List.filter is_content
    (concat (g_lines (gstep st t) ++ [g_line (gstep st t)]))
  = List.filter is_content (concat (g_lines st ++ [g_line st]))
    ++ List.filter is_content [t].
Proof.
  assert (Hc : is_content t
               = match tkind t with
                 | newline | space => false
                 | _ => true
                 end)
    by (unfold is_content; destruct (tkind t); reflexivity).
  unfold greedy_step.
  destruct (tkind t);
    repeat match goal with
           | |- context [if ?b then _ else _] => destruct b
           end;
    cbn [g_lines g_line];
    rewrite ?concat_snoc, ?List.filter_app; cbn [List.filter];
    rewrite Hc, ?app_nil_r, <- ?app_assoc; reflexivity.
Qed.

Lemma greedy_fold_content triples :
  ∀ st,
    let st' := fold_left gstep triples st in
    List.filter is_content (concat (g_lines st' ++ [g_line st']))
    = List.filter is_content (concat (g_lines st ++ [g_line st]))
      ++ List.filter is_content triples.
Proof.
  induction triples as [|t triples IH]; intros st; cbv zeta.
  - simpl. rewrite app_nil_r. reflexivity.
  - cbn [fold_left]. rewrite (IH (gstep st t)), greedy_step_content.
    rewrite <- app_assoc, <- List.filter_app. reflexivity.
Qed.

(** X10.  [greedy_text_layout] neither drops nor reorders content: the
    triples of the lines that are neither spaces nor newlines are those of
    the input, in the order of the input. *)
Theorem greedy_content (triples : list triple) :
  List.filter is_content
    (concat (greedy_text_layout f_size rtl log2vis triples width
               first_indent rest_indent justify).1)
  = List.filter is_content triples.
Proof.
  unfold greedy_text_layout. cbn [fst].
  pose proof (greedy_fold_content triples ginit) as H. cbv zeta in H.
  set (st := fold_left gstep triples ginit) in *.
  rewrite concat_snoc, List.filter_app, filter_content_concat_pop.
  rewrite <- List.filter_app, <- concat_snoc. exact H.
Qed.

Lemma greedy_fold_fits suffix :
  ∀ prefix b,
    (prefix = [] → b = true) →
    (∀ t, t ∈ suffix → tkind t ≠ newline) →
    (∀ n t, suffix !! n = Some t → tkind t ≠ space →
            layout_width f_size rtl log2vis (prefix ++ take (S n) suffix)
              justify <= width - first_indent) →
    let st' := fold_left gstep suffix
                 (mkGreedy [] prefix [] (width - first_indent) b) in
    g_lines st' = [] ∧ g_line st' = prefix ++ suffix
    ∧ g_lines_last st' = [].
Proof.
  induction suffix as [|t suffix IH]; intros prefix b Hb Hnl Hfit; cbv zeta.
  - simpl. rewrite app_nil_r. auto.
  - cbn [fold_left].
    assert (Hstep : ∃ b', gstep (mkGreedy [] prefix [] (width - first_indent) b) t
                    = mkGreedy [] (prefix ++ [t]) [] (width - first_indent) b').
    { unfold greedy_step. cbn [g_lines g_line g_lines_last g_target
                                 g_after_newline].
      assert (Hfit0 := Hfit 0%nat t eq_refl).
      change (take 1 (t :: suffix)) with [t] in Hfit0.
      destruct (tkind t) eqn:Hk.
      - exfalso. apply (Hnl t); [left|exact Hk].
      - destruct (Z.gtb_spec
                    (layout_width f_size rtl log2vis (prefix ++ [t]) justify)
                    (width - first_indent)) as [Hgt|Hle];
          [specialize (Hfit0 ltac:(discriminate)); lia|eauto].
      - destruct prefix as [|p prefix]; [rewrite Hb by reflexivity|];
          simpl; eauto.
      - destruct (Z.gtb_spec
                    (layout_width f_size rtl log2vis (prefix ++ [t]) justify)
                    (width - first_indent)) as [Hgt|Hle];
          [specialize (Hfit0 ltac:(discriminate)); lia|eauto].
      - destruct (Z.gtb_spec
                    (layout_width f_size rtl log2vis (prefix ++ [t]) justify)
                    (width - first_indent)) as [Hgt|Hle];
          [specialize (Hfit0 ltac:(discriminate)); lia|eauto]. }
    destruct Hstep as [b' ->].
    destruct (IH (prefix ++ [t]) b') as (H1 & H2 & H3).
    + intros E. destruct prefix; discriminate E.
    + intros x Hx. apply Hnl. right. exact Hx.
    + intros n x Hx Hk. rewrite <- app_assoc. exact (Hfit (S n) x Hx Hk).
    + cbv zeta in H1, H2, H3. rewrite H1, H2, H3, <- app_assoc. auto.
Qed.

(** X11.  Text that fits is left alone: when the input has no newline and
    every prefix that ends with a triple other than a space is no wider
    than the first target, [greedy_text_layout] returns the input as its
    one line, with the flag [True]. *)
Theorem greedy_one_line (triples : list triple) :
  (∀ t, t ∈ triples → tkind t ≠ newline) →
  (∀ n t, triples !! n = Some t → tkind t ≠ space →
          layout_width f_size rtl log2vis (take (S n) triples) justify
          <= width - first_indent) →
  greedy_text_layout f_size rtl log2vis triples width first_indent
    rest_indent justify
  = ([triples], [true]).
Proof.
  intros Hnl Hfit. unfold greedy_text_layout.
  destruct (greedy_fold_fits triples [] true (fun _ => eq_refl) Hnl Hfit)
    as (H1 & H2 & H3).
  cbv zeta in H1, H2, H3. rewrite H1, H2, H3. reflexivity.
Qed.
End GreedyMore.

Lemma greedy_one_line_witness :
  greedy_text_layout unit_font false id
    [a_word "ab"; a_space; a_word "cd"; a_space] 5 0 0 false
  = ([[a_word "ab"; a_space; a_word "cd"; a_space]], [true]).
Proof.
  apply greedy_one_line.
  - intros t Ht.
    repeat (apply elem_of_cons in Ht as [->|Ht]; [discriminate|]).
    apply elem_of_nil in Ht. contradiction.
  - intros [|[|[|[|n]]]] t Ht Hk; cbn in Ht; try discriminate Ht;
      injection Ht as <-; try (exfalso; apply Hk; reflexivity);
      vm_compute; discriminate.
Defined.

(** ** [subtitle_text_layout]: paragraphs, long words, the core pass *)

Lemma fold_left_invariant {A B} (f : A → B → A) (P : A → Prop) :
  (∀ a b, P a → P (f a b)) → ∀ l a, P a → P (fold_left f l a).
Proof.
  intros Hstep l. induction l as [|b l IH]; intros a Ha; [exact Ha|].
  simpl. apply IH. apply Hstep. exact Ha.
Qed.

Abbreviation split_step :=
  (fun (pars : list (list triple)) (tup : triple) =>
     if kind_eqb (tkind tup) newline then pars ++ [[]]
     else match last pars with
          | Some p => removelast pars ++ [p ++ [tup]]
          | None => pars
          end).

Lemma split_pars_fold triples :
  ∀ pars,
    pars ≠ [] →
    Forall (Forall (fun t => tkind t ≠ newline)) pars →
    let r := fold_left split_step triples pars in
    concat r
    = concat pars ++ List.filter (fun t => negb (is_newline t)) triples
    ∧ length r
      = (length pars + length (List.filter is_newline triples))%nat
    ∧ Forall (Forall (fun t => tkind t ≠ newline)) r.
Proof.
  induction triples as [|t triples IH]; intros pars Hne Hok; cbv zeta.
  - simpl. rewrite app_nil_r. split; [reflexivity|]. split; [lia|exact Hok].
  - cbn [fold_left List.filter].
    destruct (is_newline t) eqn:Hn; pose proof Hn as Hk;
      unfold is_newline in Hk; rewrite Hk; cbn [negb].
    + destruct (IH (pars ++ [[]])) as (H1 & H2 & H3).
      * intros E. destruct pars; discriminate E.
      * apply Forall_app. split; [exact Hok|repeat constructor].
      * cbv zeta in H1, H2, H3. rewrite H1, H2, concat_snoc, app_nil_r.
        rewrite length_app. simpl. split; [reflexivity|]. split; [lia|exact H3].
    + destruct pars as [|p pars] using rev_ind; [congruence|].
      rewrite last_snoc, removelast_last.
      apply Forall_app in Hok as [Hok Hp].
      destruct (IH (pars ++ [p ++ [t]])) as (H1 & H2 & H3).
      * intros E. destruct pars; discriminate E.
      * apply Forall_app. split; [exact Hok|].
        constructor; [|constructor]. apply Forall_app.
        split; [inversion Hp; assumption|].
        constructor; [|constructor]. unfold kind_eqb in Hk.
        apply bool_decide_eq_false_1 in Hk. exact Hk.
      * cbv zeta in H1, H2, H3.
        rewrite H1, H2, !concat_snoc, !length_app. simpl.
        rewrite <- !app_assoc. split; [reflexivity|]. split; [lia|exact H3].
Qed.

(** X12.  [subtitle_text_layout] splits its input at the newline triples:
    the paragraphs are one more than the newlines, no paragraph holds a
    newline, and the paragraphs one after the other are the input without
    its newlines. *)
Theorem split_pars_spec (triples : list triple) :
  concat (split_pars triples)
  = List.filter (fun t => negb (is_newline t)) triples
  ∧ length (split_pars triples)
    = S (length (List.filter is_newline triples))
  ∧ Forall (Forall (fun t => tkind t ≠ newline)) (split_pars triples).
Proof.
  unfold split_pars.
  destruct (split_pars_fold triples [[]]) as (H1 & H2 & H3);
    [discriminate|repeat constructor|].
  cbv zeta in H1, H2, H3. auto.
Qed.

Lemma split_pars_no_newline triples :
  Forall (fun t => tkind t ≠ newline) triples → split_pars triples = [triples].
Proof.
  intros Hnl.
  destruct (split_pars_fold triples [[]]) as (Hc & Hl & _);
    [discriminate|repeat constructor|].
  cbv zeta in Hc, Hl. fold (split_pars triples) in Hc, Hl.
  cbn [concat app length Nat.add] in Hc, Hl.
  assert (Hf : List.filter is_newline triples = []).
  { clear Hc Hl. induction Hnl as [|t l Ht _ IH]; [reflexivity|].
    simpl. unfold is_newline at 1, kind_eqb.
    rewrite bool_decide_eq_false_2 by exact Ht. exact IH. }
  assert (Hg : List.filter (fun t => negb (is_newline t)) triples = triples).
  { clear Hc Hl Hf. induction Hnl as [|t l Ht _ IH]; [reflexivity|].
    simpl. unfold is_newline at 1, kind_eqb.
    rewrite bool_decide_eq_false_2 by exact Ht. simpl. rewrite IH.
    reflexivity. }
  rewrite Hf in Hl. rewrite Hg in Hc.
  destruct (split_pars triples) as [|p [|q l]]; try discriminate Hl.
  simpl in Hc. rewrite app_nil_r in Hc. rewrite Hc. reflexivity.
Qed.

Section SubtitleMore.
Variable f_size : TextStyle → ustring → Z.
Variable rtl : bool.
Variable log2vis : ustring → ustring.

Abbreviation lw := (layout_width f_size rtl log2vis).
Abbreviation cstep := (core_step f_size rtl log2vis).
Abbreviation core_ := (subtitle_text_layout_core f_size rtl log2vis).

Lemma concat_chars (ts : TextStyle) (text : ustring) :
  concat (map ttext (map (fun char => (word, ts, [char])) text)) = text.
Proof. induction text as [|c text IH]; simpl; [|rewrite IH]; reflexivity. Qed.

(** X13.  Exploding the words that are wider than the hard width keeps the
    text: the texts of the triples returned, one after the other, are those
    of the input; and where every word is no wider than the hard width the
    triples are returned as they are. *)
Theorem explode_text (width : Z) (justify : bool) (triples : list triple) :
  concat (map ttext (explode f_size rtl log2vis width justify triples))
  = concat (map ttext triples)
  ∧ (Forall (fun x => tkind x = word → lw [x] justify <= width) triples →
     explode f_size rtl log2vis width justify triples = triples).
Proof.
  unfold explode. split.
  - induction triples as [|x triples IH]; [reflexivity|].
    cbn [flat_map map concat]. rewrite map_app, concat_app, IH. f_equal.
    destruct ((lw [x] justify <=? width) || negb (kind_eqb (tkind x) word)).
    + simpl. rewrite app_nil_r. reflexivity.
    + apply concat_chars.
  - induction 1 as [|x triples Hx _ IH]; [reflexivity|].
    cbn [flat_map]. rewrite IH.
    destruct (kind_eqb (tkind x) word) eqn:Hk.
    + unfold kind_eqb in Hk. apply bool_decide_eq_true_1 in Hk.
      rewrite (proj2 (Z.leb_le _ _) (Hx Hk)). reflexivity.
    + rewrite orb_true_r. reflexivity.
Qed.

(** X14.  Asked for no line at all, [n = 0], the core pass of the
    balanced fill raises [ZeroDivisionError]; asked for any other line
    count it returns at least one line and at most one line more than the
    input has triples that are not spaces. *)
Theorem core_line_count (triples : list triple) (width soft n : Z)
    (justify : bool) :
  core_ triples width soft 0 justify = Raise ZeroDivisionError
  ∧ (n ≠ 0 →
     ∃ rv,
       core_ triples width soft n justify = Ok rv
       ∧ (1 <= length rv
            <= 1 + length (List.filter (fun t => negb (is_space t))
                             triples))%nat).
Proof.
  split; [reflexivity|]. intros Hn.
  exists (core_lines f_size rtl log2vis triples width soft n justify).
  split; [apply core_Ok; exact Hn|]. apply core_lines_length.
Qed.

(** X15.  When the estimate of the line count is larger than one plus the
    number of triples of the paragraph that are not spaces, that is when
    [sumwidths / i] is over [min(width, softwidth)] for every [i] up to
    that number, the retry loop never finds its line count: no fuel lets
    the fill of the paragraph return. *)
Theorem subtitle_fill_diverges (triples : list triple)
    (width softwidth : Z) (justify : bool) :
  (∀ i, 1 <= i
        <= 1 + Z.of_nat
                 (length (List.filter (fun t => negb (is_space t)) triples))
        → lw triples justify / i > Z.min width softwidth) →
  ∀ fuel,
    subtitle_fill f_size rtl log2vis fuel triples width softwidth justify
    = None.
Proof.
  intros Hover fuel. unfold subtitle_fill.
  destruct (estimate fuel (lw triples justify) (Z.min width softwidth) 1)
    as [i0|] eqn:Hest; [|reflexivity].
  cbn [mbind option_bind].
  apply estimate_spec in Hest as (k0 & _ & -> & Hle & _).
  destruct (retry f_size rtl log2vis fuel triples width justify
              (lw triples justify) (1 + Z.of_nat k0))
    as [[rv|e]|] eqn:Hretry; [| |reflexivity]; exfalso.
  - apply retry_spec in Hretry as (k & _ & Hcore & Hlen & _).
    set (m := length (List.filter (fun t => negb (is_space t)) triples))
      in *.
    assert (Hk0 : 1 + Z.of_nat m < 1 + Z.of_nat k0).
    { destruct (Z.lt_ge_cases (1 + Z.of_nat m) (1 + Z.of_nat k0))
        as [H|H]; [exact H|].
      specialize (Hover (1 + Z.of_nat k0) ltac:(lia)). lia. }
    apply core_lines_bound in Hcore as [_ Hub].
    fold m in Hub. lia.
  - revert Hretry. apply retry_no_raise. lia.
Qed.

Lemma core_step_content width soft justify st t :
  List.filter is_content
    (concat (c_lines (cstep width soft justify st t)
             ++ [c_line (cstep width soft justify st t)]))
  = List.filter is_content (concat (c_lines st ++ [c_line st]))
    ++ List.filter is_content [t].
Proof.
  assert (Hc : is_content t
               = match tkind t with
                 | newline | space => false
                 | _ => true
                 end)
    by (unfold is_content; destruct (tkind t); reflexivity).
  unfold core_step.
  destruct (tkind t); cbv zeta; eval_kinds;
    repeat match goal with
           | |- context [if ?b then _ else _] => destruct b
           end;
    cbn [c_lines c_line];
    rewrite ?concat_snoc, ?List.filter_app, ?filter_content_pop;
    cbn [List.filter];
    rewrite Hc, ?app_nil_r, <- ?app_assoc; reflexivity.
Qed.

Lemma filter_content_pop_leading l :
  List.filter is_content (pop_leading_space l) = List.filter is_content l.
Proof.
  destruct l as [|a l]; [reflexivity|]. simpl.
  destruct (kind_eqb (tkind a) space) eqn:E; [|reflexivity].
  unfold is_content. rewrite E. reflexivity.
Qed.

Lemma core_fold_content width soft justify triples :
  ∀ st,
    List.filter is_content
      (concat (c_lines (fold_left (cstep width soft justify) triples st)
               ++ [c_line (fold_left (cstep width soft justify) triples st)]))
    = List.filter is_content (concat (c_lines st ++ [c_line st]))
      ++ List.filter is_content triples.
Proof.
  induction triples as [|t triples IH]; intros st.
  - simpl. rewrite app_nil_r. reflexivity.
  - cbn [fold_left]. rewrite IH, core_step_content.
    rewrite <- app_assoc, <- List.filter_app. reflexivity.
Qed.

(** X16.  Asked for a line count other than zero, the core pass returns,
    and it neither drops nor reorders content: the triples of its lines
    that are neither spaces nor newlines are those of the input, in the
    order of the input. *)
Theorem core_content (triples : list triple) (width soft n : Z)
    (justify : bool) :
  n ≠ 0 →
  ∃ rv,
    core_ triples width soft n justify = Ok rv
    ∧ List.filter is_content (concat rv) = List.filter is_content triples.
Proof.
  intros Hn.
  exists (core_lines f_size rtl log2vis triples width soft n justify).
  split; [apply core_Ok; exact Hn|]. unfold core_lines. cbv zeta.
  set (st0 := mkCore [] [] (soft * n) (soft * n / n) n).
  pose proof (core_fold_content width soft justify triples st0) as H.
  change (List.filter is_content (concat (c_lines st0 ++ [c_line st0])))
    with (@nil triple) in H.
  rewrite app_nil_l in H. rewrite <- H. clear H.
  generalize (c_lines (fold_left (cstep width soft justify) triples st0)
              ++ [c_line (fold_left (cstep width soft justify) triples st0)]).
  intros lines. induction lines as [|l lines IH]; [reflexivity|].
  simpl. rewrite !List.filter_app, IH.
  rewrite filter_content_pop_leading, filter_content_pop. reflexivity.
Qed.
End SubtitleMore.

Lemma explode_text_witness :
  explode unit_font false id 10 false [a_word "ab"; a_space; a_word "cd"]
  = [a_word "ab"; a_space; a_word "cd"].
Proof.
  apply (proj2 (explode_text unit_font false id 10 false
                  [a_word "ab"; a_space; a_word "cd"])).
  repeat constructor; intros _; vm_compute; discriminate.
Defined.

Lemma subtitle_fill_diverges_witness :
  subtitle_fill unit_font false id 100
    [a_word "aaaaaaaaaaaa"; a_space; a_word "bbbbbbbbbbbb"] 30 3 false
  = None.
Proof.
  apply subtitle_fill_diverges.
  change (layout_width unit_font false id
            [a_word "aaaaaaaaaaaa"; a_space; a_word "bbbbbbbbbbbb"] false)
    with 25.
  change (Z.min 30 3) with 3.
  change (Z.of_nat (length (List.filter (fun t => negb (is_space t))
            [a_word "aaaaaaaaaaaa"; a_space; a_word "bbbbbbbbbbbb"])))
    with 2.
  intros i Hi.
  assert (i = 1 ∨ i = 2 ∨ i = 3) as [-> | [-> | ->]] by lia;
    vm_compute; reflexivity.
Defined.

Lemma core_line_count_witness :
  ∃ rv,
    subtitle_text_layout_core unit_font false id
      [a_word "aaaaaaa"; a_space; a_word "bbbbbbb"; a_space; a_word "c"]
      8 5 3 false = Ok rv
    ∧ (1 <= length rv
         <= 1 + length (List.filter (fun t => negb (is_space t))
                          [a_word "aaaaaaa"; a_space; a_word "bbbbbbb";
                           a_space; a_word "c"]))%nat.
Proof.
  apply (proj2 (core_line_count unit_font false id
                  [a_word "aaaaaaa"; a_space; a_word "bbbbbbb"; a_space;
                   a_word "c"] 8 5 3 false)).
  lia.
Defined.

Lemma core_content_witness :
  ∃ rv,
    subtitle_text_layout_core unit_font false id
      [a_word "aaaaaaa"; a_space; a_word "bbbbbbb"; a_space; a_word "c"]
      8 5 3 false = Ok rv
    ∧ List.filter is_content (concat rv)
      = List.filter is_content
          [a_word "aaaaaaa"; a_space; a_word "bbbbbbb"; a_space;
           a_word "c"].
Proof.
  apply (core_content unit_font false id
           [a_word "aaaaaaa"; a_space; a_word "bbbbbbb"; a_space;
            a_word "c"] 8 5 3 false).
  lia.
Defined.

(** ** The core pass starts no line with a space *)

Lemma no_leading_space_app l t :
  no_leading_space l → (l = [] → tkind t ≠ space) →
  no_leading_space (l ++ [t]).
Proof.
  intros Hl Ht x Hx. destruct l as [|a l].
  - injection Hx as <-. apply Ht. reflexivity.
  - apply Hl. exact Hx.
Qed.

Lemma no_leading_space_pop l :
  no_leading_space l → no_leading_space (pop_trailing_space l).
Proof.
  unfold pop_trailing_space. intros Hl.
  destruct l as [|a l] using rev_ind; [exact Hl|].
  rewrite last_snoc.
  destruct (kind_eqb (tkind a) space) eqn:E; [|exact Hl].
  rewrite removelast_last. intros x Hx. apply Hl.
  destruct l; [discriminate Hx|exact Hx].
Qed.

Lemma pop_leading_space_id l :
  no_leading_space l → pop_leading_space l = l.
Proof.
  intros Hl. destruct l as [|a l]; [reflexivity|]. simpl.
  unfold kind_eqb. rewrite bool_decide_eq_false_2; [reflexivity|].
  apply Hl. reflexivity.
Qed.

Section CoreSpaces.
Variable f_size : TextStyle → ustring → Z.
Variable rtl : bool.
Variable log2vis : ustring → ustring.

Lemma core_step_no_leading_space width soft justify st t :
  no_leading_space (c_line st) ∧ Forall no_leading_space (c_lines st) →
  no_leading_space (c_line (core_step f_size rtl log2vis width soft justify
                              st t))
  ∧ Forall no_leading_space
      (c_lines (core_step f_size rtl log2vis width soft justify st t)).
Proof.
  intros [Hline Hlines].
  assert (Hnil : no_leading_space []) by (intros x Hx; discriminate Hx).
  assert (Hone : tkind t ≠ space → no_leading_space [t])
    by (intros Hk x [= <-]; exact Hk).
  assert (Hflush : ∀ l, no_leading_space l →
            Forall no_leading_space (c_lines st ++ [l]))
    by (intros l Hl; apply Forall_app; split;
        [exact Hlines|constructor; [exact Hl|constructor]]).
  unfold core_step.
  destruct (tkind t) eqn:Hk; cbv zeta; eval_kinds;
    repeat match goal with
           | |- context [if ?b then _ else _] => destruct b eqn:?
           end;
    cbn [c_lines c_line];
    repeat match goal with
           | |- _ ∧ _ => split
           | |- Forall no_leading_space (c_lines st) => exact Hlines
           | |- Forall no_leading_space (_ ++ [_]) => apply Hflush
           | |- no_leading_space [] => exact Hnil
           | |- no_leading_space [t] => apply Hone; discriminate
           | |- no_leading_space (pop_trailing_space _) =>
               apply no_leading_space_pop
           | |- no_leading_space (c_line st) => exact Hline
           | |- no_leading_space (c_line st ++ [t]) =>
               apply no_leading_space_app; [exact Hline|]
           end;
    try (rewrite Hk; discriminate).
  (* a space goes on a line that is not empty *)
  intros E.
  match goal with
  | H : negb (nonempty (c_line st)) = false |- _ =>
      rewrite E in H; discriminate H
  end.
Qed.

(** X17.  Asked for a line count other than zero, the core pass returns,
    and no line it returns begins with a space triple: a space is put on a
    line that has a triple already, so the removal of a leading space at
    the end of the pass never finds one. *)
Theorem core_no_leading_space (triples : list triple) (width soft n : Z)
    (justify : bool) :
  n ≠ 0 →
  ∃ rv,
    subtitle_text_layout_core f_size rtl log2vis triples width soft n
      justify = Ok rv
    ∧ Forall no_leading_space rv.
Proof.
  intros Hn.
  exists (core_lines f_size rtl log2vis triples width soft n justify).
  split; [apply core_Ok; exact Hn|]. unfold core_lines. cbv zeta.
  pose proof (fold_left_invariant
                (core_step f_size rtl log2vis width soft justify)
                (fun st => no_leading_space (c_line st)
                           ∧ Forall no_leading_space (c_lines st))
                (core_step_no_leading_space width soft justify)
                triples (mkCore [] [] (soft * n) (soft * n / n) n)) as H.
  destruct H as [Hline Hlines].
  { split; [intros x Hx; discriminate Hx|constructor]. }
  apply Forall_map. apply Forall_app. split.
  - eapply Forall_impl; [exact Hlines|]. intros l Hl. cbn beta.
    rewrite pop_leading_space_id; apply no_leading_space_pop; exact Hl.
  - constructor; [|constructor].
    rewrite pop_leading_space_id; apply no_leading_space_pop; exact Hline.
Qed.

(** X18.  For input without a newline triple, that is for one paragraph,
    [subtitle_text_layout] returns the lines of the fill of the paragraph
    with as many flags as lines, [False] for every line but the last and
    [True] for the last. *)
Theorem subtitle_one_paragraph (fuel : nat) (triples : list triple)
    (width softwidth : Z) (justify : bool) (rv : list (list triple)) :
  Forall (fun t => tkind t ≠ newline) triples →
  subtitle_fill f_size rtl log2vis fuel
    (explode f_size rtl log2vis width justify triples) width softwidth
    justify = Some (Ok rv) →
  subtitle_text_layout f_size rtl log2vis fuel triples width softwidth
    justify
  = Some (Ok (rv, replicate (length rv - 1) false ++ [true]))
  ∧ length (replicate (length rv - 1) false ++ [true]) = length rv.
Proof.
  intros Hnl Hfill. unfold subtitle_text_layout.
  rewrite (split_pars_no_newline triples Hnl).
  cbn [foldl mbind option_bind]. unfold subtitle_paragraph.
  rewrite Hfill. cbn [mbind option_bind app]. split; [reflexivity|].
  assert (Hlen : (1 <= length rv)%nat).
  { unfold subtitle_fill in Hfill.
    destruct (estimate _ _ _ _) as [i0|]; [|discriminate Hfill].
    cbn [mbind option_bind] in Hfill.
    apply retry_spec in Hfill as (k & _ & Hcore & _ & _).
    apply core_lines_bound in Hcore. lia. }
  rewrite length_app, length_replicate. simpl. lia.
Qed.
End CoreSpaces.

Lemma core_no_leading_space_witness :
  ∃ rv,
    subtitle_text_layout_core unit_font false id
      [a_space; a_word "aaaaaaa"; a_space; a_word "bbbbbbb"; a_space;
       a_word "c"] 8 5 3 false = Ok rv
    ∧ Forall no_leading_space rv.
Proof.
  apply (core_no_leading_space unit_font false id
           [a_space; a_word "aaaaaaa"; a_space; a_word "bbbbbbb"; a_space;
            a_word "c"] 8 5 3 false).
  lia.
Defined.

Lemma subtitle_one_paragraph_witness :
  subtitle_text_layout unit_font false id 5
    [a_word "aaaaaaa"; a_space; a_word "bbbbbbb"; a_space; a_word "c"]
    8 8 false
  = Some (Ok ([[a_word "aaaaaaa"]; [a_word "bbbbbbb"]; [a_word "c"]],
              [false; false; true])).
Proof.
  apply (proj1 (subtitle_one_paragraph unit_font false id 5
                  [a_word "aaaaaaa"; a_space; a_word "bbbbbbb"; a_space;
                   a_word "c"] 8 8 false
                  [[a_word "aaaaaaa"]; [a_word "bbbbbbb"]; [a_word "c"]]
                  ltac:(repeat constructor; discriminate)
                  ltac:(vm_compute; reflexivity))).
Defined.

(** ** The tag pass: depth, hyperlinks, triples *)

Lemma startswith_inv p : ∀ s, startswith s p = true → ∃ r, s = p ++ r.
Proof.
  induction p as [|a p IH]; intros s H; [exists s; reflexivity|].
  destruct s as [|b s]; [discriminate H|]. simpl in H.
  apply andb_prop in H as [Hab Hp]. apply N.eqb_eq in Hab as ->.
  destruct (IH s Hp) as [r ->]. exists r. reflexivity.
Qed.

Lemma head_snoc {A} (l : list A) (x : A) : l ≠ [] → head (l ++ [x]) = head l.
Proof. destruct l; [congruence|reflexivity]. Qed.

Lemma removelast_cons2 {A} (a b : A) (l : list A) :
  removelast (a :: b :: l) = a :: removelast (b :: l).
Proof. reflexivity. Qed.

(** One token: the bottom of the stack stays, and the depth goes down by
    one on a closing tag and up by one on a tag that opens a scope. *)
Lemma layout_token_depth E st tok st' :
  layout_token E st tok = Ok st' → tsl st ≠ [] →
  head (tsl st') = head (tsl st)
  ∧ (length (tsl st') + (if closes_scope tok then 1 else 0)
     = length (tsl st) + (if opens_scope tok then 1 else 0))%nat.
Proof.
  unfold layout_token, closes_scope, opens_scope, no_scope.
  destruct tok as [k i]. cbn [fst snd]. intros H Hne.
  destruct k; eval_kinds; cbn [andb];
    repeat match type of H with
           | context [if ?b then _ else _] => destruct b eqn:?
           | context [top ?l] => destruct (top l)
           | context [match tsl st with _ => _ end] =>
               destruct (tsl st) as [|? [|? ?]] eqn:?
           end;
    cbn [mbind result_bind negb orb andb] in *; try discriminate H;
    try (injection H as <-; cbn [tsl]; split; [reflexivity|lia]).
  all: try (destruct (open_tag E i _);
            [cbn [mbind result_bind] in H|discriminate H]).
  all: injection H as <-; cbn [tsl].
  - (* a closing tag with two or more styles on the stack *)
    destruct l as [|t0 l]; [discriminate Heqb0|].
    split; [reflexivity|]. cbn [length].
    assert (Hl : (S (length (removelast (t0 :: l))) = length (t0 :: l))%nat).
    { generalize (t0 :: l) (@nil_cons _ t0 l). intros l0 Hl0.
      destruct l0 as [|x l0] using rev_ind; [congruence|].
      rewrite removelast_last, length_app. simpl. lia. }
    simpl in *. lia.
  - rewrite head_snoc by exact Hne.
    split; [reflexivity|]. rewrite length_app. simpl. lia.
  - rewrite head_snoc by exact Hne.
    split; [reflexivity|]. rewrite length_app. simpl. lia.
  - rewrite head_snoc by exact Hne.
    split; [reflexivity|]. rewrite length_app. simpl. lia.
  - rewrite head_snoc by exact Hne.
    split; [reflexivity|]. rewrite length_app. simpl. lia.
Qed.

Lemma layout_tokens_depth E tokens :
  ∀ st st',
    layout_tokens E st tokens = Ok st' → tsl st ≠ [] →
    head (tsl st') = head (tsl st)
    ∧ (length (tsl st') + length (List.filter closes_scope tokens)
       = length (tsl st) + length (List.filter opens_scope tokens))%nat.
Proof.
  induction tokens as [|tok tokens IH]; intros st st' H Hne.
  - injection H as <-. simpl. split; [reflexivity|lia].
  - cbn [layout_tokens] in H.
    destruct (layout_token E st tok) as [st1|e] eqn:Htok; [|discriminate H].
    cbn [mbind result_bind] in H.
    destruct (layout_token_depth E st tok st1 Htok Hne) as [Hh Hl].
    destruct (IH st1 st' H (layout_token_stack E st tok st1 Htok Hne))
      as [Hh' Hl'].
    split; [congruence|]. cbn [List.filter].
    destruct (closes_scope tok), (opens_scope tok); simpl in *; lia.
Qed.

(** X19.  When the tag pass of [Text.layout] returns, the root style is
    still at the bottom of the stack, and the depth of the stack is one
    plus the tags that opened a scope minus the tags that closed one. *)
Theorem layout_depth (E : env) (tokens : list (kind * ustring))
    (st : layout_state) :
  layout_tags E tokens = Ok st →
  head (tsl st) = Some (style_of_props 0 (e_style E) None None None)
  ∧ (length (tsl st) + length (List.filter closes_scope tokens)
     = 1 + length (List.filter opens_scope tokens))%nat.
Proof.
  rewrite layout_tags_tokens. intros H.
  apply layout_tokens_depth in H; [exact H|discriminate].
Qed.

Lemma layout_depth_witness :
  ∃ st, layout_tags plain_env (text_tokenizer (U "{b}x{i}y{/i}")) = Ok st
        ∧ (length (tsl st) + 1 = 1 + 2)%nat.
Proof.
  eexists. split; [vm_compute; reflexivity|].
  etransitivity;
    [apply (layout_depth plain_env (text_tokenizer (U "{b}x{i}y{/i}")));
     vm_compute; reflexivity
    |vm_compute; reflexivity].
Defined.

(** One token: a hyperlink tag adds its target to the table, no other
    token touches the table. *)
Lemma layout_token_hyperlinks E st tok st' :
  layout_token E st tok = Ok st' →
  laidout_hyperlinks st' = laidout_hyperlinks st ++ link_targets [tok].
Proof.
  unfold link_targets. cbn [flat_map]. rewrite app_nil_r.
  destruct tok as [k i]. cbn [fst snd].
  destruct (kind_eqb k tag && startswith i (U "a=")) eqn:Hlink.
  - apply andb_prop in Hlink as [Hk Ha]. unfold kind_eqb in Hk.
    apply bool_decide_eq_true_1 in Hk. subst k.
    apply startswith_inv in Ha as [r ->].
    unfold layout_token.
    change (startswith (U "a=" ++ r) (U "/")) with false.
    unfold str_eqb. rewrite !bool_decide_eq_false_2 by discriminate.
    change (startswith (U "a=" ++ r) (U "w=")) with false.
    replace (startswith (U "a=" ++ r) (U "a=")) with true
      by (destruct r; reflexivity).
    intros [= <-]. reflexivity.
  - unfold layout_token. intros H.
    destruct k; eval_kinds; cbn [andb] in Hlink;
      repeat match type of H with
             | context [if ?b then _ else _] => destruct b eqn:?
             | context [top ?l] => destruct (top l)
             | context [match tsl st with _ => _ end] =>
                 destruct (tsl st) eqn:?
             end;
      cbn [mbind result_bind] in H; try discriminate H;
      try (change (kind_eqb tag tag) with true in Hlink;
           discriminate Hlink);
      try (injection H as <-; cbn [laidout_hyperlinks];
           rewrite app_nil_r; reflexivity).
    destruct (open_tag E i _); [|discriminate H].
    cbn [mbind result_bind] in H. injection H as <-.
    cbn [laidout_hyperlinks]. rewrite app_nil_r. reflexivity.
Qed.

Lemma link_targets_cons tok tokens :
  link_targets (tok :: tokens) = link_targets [tok] ++ link_targets tokens.
Proof. unfold link_targets. simpl. rewrite app_nil_r. reflexivity. Qed.

Lemma layout_tokens_hyperlinks E tokens :
  ∀ st st',
    layout_tokens E st tokens = Ok st' →
    laidout_hyperlinks st' = laidout_hyperlinks st ++ link_targets tokens.
Proof.
  induction tokens as [|tok tokens IH]; intros st st' H.
  - injection H as <-. rewrite app_nil_r. reflexivity.
  - cbn [layout_tokens] in H.
    destruct (layout_token E st tok) as [st1|e] eqn:Htok; [|discriminate H].
    cbn [mbind result_bind] in H.
    rewrite (link_targets_cons tok tokens), (IH st1 st' H).
    rewrite (layout_token_hyperlinks E st tok st1 Htok), <- app_assoc.
    reflexivity.
Qed.

(** X20.  When the tag pass returns, the hyperlink table holds the targets
    of the [a=] tags of the input, each once, in the order of the input. *)
Theorem layout_hyperlinks (E : env) (tokens : list (kind * ustring))
    (st : layout_state) :
  layout_tags E tokens = Ok st →
  laidout_hyperlinks st = link_targets tokens.
Proof.
  rewrite layout_tags_tokens. intros H.
  apply layout_tokens_hyperlinks in H. exact H.
Qed.

Lemma layout_hyperlinks_witness :
  ∃ st,
    layout_tags plain_env
      (text_tokenizer (U "{a=one}x{/a} {b}{a=two}y{/a}{/b}")) = Ok st
    ∧ laidout_hyperlinks st = [U "one"; U "two"].
Proof.
  eexists. split; [vm_compute; reflexivity|].
  etransitivity;
    [apply (layout_hyperlinks plain_env
              (text_tokenizer (U "{a=one}x{/a} {b}{a=two}y{/a}{/b}")));
     vm_compute; reflexivity
    |vm_compute; reflexivity].
Defined.

(** One token: the triple it gives. *)
Lemma layout_token_triples E st tok st' :
  layout_token E st tok = Ok st' →
  map kind_text (triples st')
  = map kind_text (triples st) ++ triple_of_token tok.
Proof.
  destruct tok as [k i]. unfold layout_token, triple_of_token.
  destruct (decide (k = tag ∧ i = U "fast")) as [[-> ->]|Hnf].
  - change (str_eqb (U "fast") (U "fast")) with true.
    change (startswith (U "fast") (U "/")) with false.
    change (str_eqb (U "fast") (U "w")) with false.
    change (str_eqb (U "fast") (U "nw")) with false.
    change (startswith (U "fast") (U "w=")) with false.
    cbv iota. destruct (top (tsl st)); [|discriminate].
    cbn [mbind result_bind]. intros [= <-]. cbn [triples].
    rewrite map_app. reflexivity.
  - intros H.
    assert (Hf : k = tag → str_eqb i (U "fast") = false).
    { intros ->. unfold str_eqb. apply bool_decide_eq_false_2.
      intros ->. apply Hnf. split; reflexivity. }
    destruct k; try rewrite (Hf eq_refl) in *;
      repeat match type of H with
             | context [if ?b then _ else _] => destruct b eqn:?
             | context [top ?l] => destruct (top l)
             | context [match tsl st with _ => _ end] =>
                 destruct (tsl st) eqn:?
             end;
      cbn [mbind result_bind] in H; try discriminate H;
      try (injection H as <-; cbn [triples];
           rewrite ?map_app, ?app_nil_r; reflexivity).
    destruct (open_tag E i _); [|discriminate H].
    cbn [mbind result_bind] in H. injection H as <-.
    cbn [triples]. rewrite app_nil_r. reflexivity.
Qed.

Lemma layout_tokens_triples E tokens :
  ∀ st st',
    layout_tokens E st tokens = Ok st' →
    map kind_text (triples st')
    = map kind_text (triples st) ++ flat_map triple_of_token tokens.
Proof.
  induction tokens as [|tok tokens IH]; intros st st' H.
  - injection H as <-. simpl. rewrite app_nil_r. reflexivity.
  - cbn [layout_tokens] in H.
    destruct (layout_token E st tok) as [st1|e] eqn:Htok; [|discriminate H].
    cbn [mbind result_bind] in H.
    rewrite (IH st1 st' H), (layout_token_triples E st tok st1 Htok).
    cbn [flat_map]. rewrite <- app_assoc. reflexivity.
Qed.

(** X21.  When the tag pass returns, the triples it built are, in kind and
    text and in the order of the input: a word or a space for every word or
    space token with the text of the token, a newline with empty text for
    every newline token, a start marker for every [fast] tag, and nothing
    for any other tag. *)
Theorem layout_triples (E : env) (tokens : list (kind * ustring))
    (st : layout_state) :
  layout_tags E tokens = Ok st →
  map kind_text (triples st) = flat_map triple_of_token tokens.
Proof.
  rewrite layout_tags_tokens. intros H.
  apply layout_tokens_triples in H. exact H.
Qed.

Lemma layout_triples_witness :
  ∃ st,
    layout_tags plain_env (text_tokenizer (U "Hello {b}world{/b}!")) = Ok st
    ∧ map kind_text (triples st)
      = [(word, U "Hello"); (space, U " "); (word, U "world");
         (word, U "!")].
Proof.
  eexists. split; [vm_compute; reflexivity|].
  etransitivity;
    [apply (layout_triples plain_env
              (text_tokenizer (U "Hello {b}world{/b}!")));
     vm_compute; reflexivity
    |vm_compute; reflexivity].
Defined.

(** ** Validated text ends the tag pass at the root *)







(** ** [Text.update]: the pause passes *)

Section UpdateProperties.
Variable F : Type.
Variable float_ : ustring → result F.

Abbreviation ptoken := (pause_token F float_).
Abbreviation ptokens := (pause_tokens F float_).
Abbreviation ctokens := (cut_tokens F float_).

Lemma str_eqb_true s t : str_eqb s t = true → s = t.
Proof. unfold str_eqb. apply bool_decide_eq_true_1. Qed.

(** One token of the first loop: the counters. *)
Lemma pause_token_counters st i st' :
  ptoken st i = Ok st' →
  (u_pauses st = Z.of_nat (length (u_pause_lengths st)) →
   u_pauses st' = Z.of_nat (length (u_pause_lengths st')))
  ∧ u_fasts st' = u_fasts st + (if is_fast_tag i then 1 else 0).
Proof.
  destruct i as [k text]. unfold pause_token, is_fast_tag. cbn [fst snd].
  destruct (kind_eqb k tag); cbn [andb];
    [|intros [= <-]; cbn [u_pauses u_pause_lengths u_fasts];
      split; [tauto|lia]].
  destruct (str_eqb text (U "fast")) eqn:Hfast.
  { apply str_eqb_true in Hfast. subst text. intros [= <-].
    split; [intros _; reflexivity|reflexivity]. }
  repeat match goal with
         | |- context [if ?b then _ else _] => destruct b
         | |- context [float_ ?x] => destruct (float_ x)
         end;
    cbn [mbind result_bind]; try discriminate;
    intros [= <-]; cbn [u_pauses u_pause_lengths u_fasts];
    rewrite ?length_app; simpl length; split; lia.
Qed.

(** One token of the first loop: the tokens it appends. *)
Lemma pause_token_tokens st i st' :
  ptoken st i = Ok st' →
  ∃ added,
    u_new_tokens st' = u_new_tokens st ++ added
    ∧ List.filter is_fast_tag added = List.filter is_fast_tag [i]
    ∧ List.filter is_text_token added = List.filter is_text_token [i]
    ∧ Forall (fun tok => is_p_tag tok = false) added.
Proof.
  destruct i as [k text]. unfold pause_token.
  destruct (kind_eqb k tag) eqn:Hk.
  2:{ intros [= <-]. exists [(k, text)]. cbn [u_new_tokens].
      repeat apply conj; try reflexivity.
      constructor; [|constructor]. unfold is_p_tag. cbn [fst snd].
      rewrite Hk. reflexivity. }
  unfold kind_eqb in Hk. apply bool_decide_eq_true_1 in Hk. subst k.
  destruct (str_eqb text (U "p")) eqn:Hp.
  { apply str_eqb_true in Hp. subst text. intros [= <-].
    exists [(tag, U "w"); (newline, [c_newline])]. cbn [u_new_tokens].
    repeat apply conj; try reflexivity. repeat constructor. }
  destruct (startswith text (U "p=")) eqn:Hpeq.
  { apply startswith_inv in Hpeq as [r ->].
    destruct (float_ (drop 2 (U "p=" ++ r))) as [x|e]; [|discriminate].
    cbn [mbind result_bind]. intros [= <-].
    exists [(tag, U "w=" ++ drop 2 (U "p=" ++ r)); (newline, [c_newline])].
    cbn [u_new_tokens]. change (drop 2 (U "p=" ++ r)) with r.
    assert (Hf1 : is_fast_tag (tag, U "w=" ++ r) = false)
      by (unfold is_fast_tag, str_eqb; cbn [fst snd];
          rewrite bool_decide_eq_false_2 by discriminate; reflexivity).
    assert (Hf2 : is_fast_tag (tag, U "p=" ++ r) = false)
      by (unfold is_fast_tag, str_eqb; cbn [fst snd];
          rewrite bool_decide_eq_false_2 by discriminate; reflexivity).
    assert (Hp1 : is_p_tag (tag, U "w=" ++ r) = false)
      by (unfold is_p_tag, str_eqb; cbn [fst snd];
          rewrite bool_decide_eq_false_2 by discriminate; reflexivity).
    split; [reflexivity|]. cbn [List.filter]. rewrite Hf1, Hf2.
    repeat apply conj; try reflexivity.
    constructor; [exact Hp1|]. constructor; [reflexivity|constructor]. }
  assert (Hnp : is_p_tag (tag, text) = false)
    by (unfold is_p_tag; cbn [fst snd]; rewrite Hp, Hpeq; reflexivity).
  intros H. exists [(tag, text)].
  split; [|repeat apply conj; try reflexivity;
           constructor; [exact Hnp|constructor]].
  repeat match type of H with
         | context [if ?b then _ else _] => destruct b
         | context [float_ ?x] => destruct (float_ x)
         end;
    cbn [mbind result_bind] in H; try discriminate H;
    injection H as <-; reflexivity.
Qed.

Lemma pause_tokens_spec tokens :
  ∀ st st',
    ptokens st tokens = Ok st' →
    (u_pauses st = Z.of_nat (length (u_pause_lengths st)) →
     u_pauses st' = Z.of_nat (length (u_pause_lengths st')))
    ∧ u_fasts st'
      = u_fasts st + Z.of_nat (length (List.filter is_fast_tag tokens))
    ∧ List.filter is_fast_tag (u_new_tokens st')
      = List.filter is_fast_tag (u_new_tokens st)
        ++ List.filter is_fast_tag tokens
    ∧ List.filter is_text_token (u_new_tokens st')
      = List.filter is_text_token (u_new_tokens st)
        ++ List.filter is_text_token tokens
    ∧ (Forall (fun tok => is_p_tag tok = false) (u_new_tokens st) →
       Forall (fun tok => is_p_tag tok = false) (u_new_tokens st')).
Proof.
  induction tokens as [|i tokens IH]; intros st st' H.
  - injection H as <-. simpl. rewrite !app_nil_r.
    repeat apply conj; auto. lia.
  - cbn [pause_tokens] in H.
    destruct (ptoken st i) as [st1|e] eqn:Hi; [|discriminate H].
    cbn [mbind result_bind] in H.
    destruct (pause_token_counters st i st1 Hi) as (A1 & A2).
    destruct (pause_token_tokens st i st1 Hi)
      as (added & A3 & A4 & A5 & A6).
    destruct (IH st1 st' H) as (B1 & B2 & B3 & B4 & B5).
    split; [auto|].
    split; [rewrite B2, A2; cbn [List.filter];
            destruct (is_fast_tag i); simpl length; lia|].
    split; [rewrite B3, A3, List.filter_app, A4, <- app_assoc,
              <- List.filter_app; reflexivity|].
    split; [rewrite B4, A3, List.filter_app, A5, <- app_assoc,
              <- List.filter_app; reflexivity|].
    intros Hall. apply B5. rewrite A3. apply Forall_app.
    split; [exact Hall|exact A6].
Qed.

(** One token of the first loop: what it writes. *)
Lemma pause_token_rewrite st i st' :
  ptoken st i = Ok st' →
  u_new_tokens st' = u_new_tokens st ++ pause_rewrite i.
Proof.
  destruct i as [k text]. unfold pause_token, pause_rewrite.
  destruct k; eval_kinds; try (intros [= <-]; reflexivity).
  destruct (str_eqb text (U "p")); [intros [= <-]; reflexivity|].
  destruct (startswith text (U "p=")).
  { destruct (float_ _); cbn [mbind result_bind]; [|discriminate].
    intros [= <-]. reflexivity. }
  intros H.
  repeat match type of H with
         | context [if ?b then _ else _] => destruct b
         | context [float_ ?x] => destruct (float_ x)
         end;
    cbn [mbind result_bind] in H; try discriminate H;
    injection H as <-; reflexivity.
Qed.

Lemma pause_tokens_rewrite tokens :
  ∀ st st',
    ptokens st tokens = Ok st' →
    u_new_tokens st' = u_new_tokens st ++ flat_map pause_rewrite tokens.
Proof.
  induction tokens as [|i tokens IH]; intros st st' H.
  - injection H as <-. simpl. rewrite app_nil_r. reflexivity.
  - cbn [pause_tokens] in H.
    destruct (ptoken st i) as [st1|e] eqn:Hi; [|discriminate H].
    cbn [mbind result_bind] in H.
    rewrite (IH _ _ H), (pause_token_rewrite _ _ _ Hi).
    cbn [flat_map]. rewrite app_assoc. reflexivity.
Qed.

(** X23.  After the first loop of [Text.update], [self.pauses] is the
    length of [self.pause_lengths] and [fasts] is the number of [fast] tags
    of the input. *)
Theorem update_counters (tokens : list (kind * ustring))
    (st : pause_state F) :
  ptokens (pause_init F) tokens = Ok st →
  u_pauses st = Z.of_nat (length (u_pause_lengths st))
  ∧ u_fasts st = Z.of_nat (length (List.filter is_fast_tag tokens)).
Proof.
  intros H. destruct (pause_tokens_spec tokens _ _ H) as (H1 & H2 & _).
  split; [apply H1; reflexivity|rewrite H2; reflexivity].
Qed.

(** X24.  The tokens the first loop of [Text.update] leaves are those of
    the input, in their order, with every [p] tag written as a [w] tag
    followed by a newline token and every [p=...] tag as the [w=...] tag
    of the same argument followed by a newline token, and every other
    token as it is.  So no [p] or [p=...] tag is left, and the word and
    space tokens and the [fast] tags of the input are kept, in their
    order. *)
Theorem update_tokens (tokens : list (kind * ustring))
    (st : pause_state F) :
  ptokens (pause_init F) tokens = Ok st →
  u_new_tokens st = flat_map pause_rewrite tokens
  ∧ Forall (fun tok => is_p_tag tok = false) (u_new_tokens st)
  ∧ List.filter is_text_token (u_new_tokens st)
    = List.filter is_text_token tokens
  ∧ List.filter is_fast_tag (u_new_tokens st)
    = List.filter is_fast_tag tokens.
Proof.
  intros H.
  destruct (pause_tokens_spec tokens _ _ H) as (_ & _ & H3 & H4 & H5).
  split; [exact (pause_tokens_rewrite tokens _ _ H)|].
  split; [apply H5; constructor|]. split; [exact H4|exact H3].
Qed.

Lemma filter_length_nil {A} (f : A → bool) (l : list A) :
  length (List.filter f l) = 0%nat → List.filter f l = [].
Proof. destruct (List.filter f l); [reflexivity|discriminate]. Qed.

(** One token of the second loop: the loop goes on with the token kept
    (a [nw] tag is not kept), or it stops with the token kept, and it stops
    only when no [fast] tag is counted as outstanding. *)
Lemma cut_tokens_step st i tokens st' :
  ctokens st (i :: tokens) = Ok st' →
  (∃ st1,
     k_new_tokens st1
     = k_new_tokens st
       ++ List.filter (fun tok => negb (is_nw_tag tok)) [i]
     ∧ k_fasts st1 = k_fasts st - (if is_fast_tag i then 1 else 0)
     ∧ ctokens st1 tokens = Ok st')
  ∨ (k_new_tokens st'
     = k_new_tokens st
       ++ List.filter (fun tok => negb (is_nw_tag tok)) [i]
     ∧ k_fasts st - (if is_fast_tag i then 1 else 0) = 0).
Proof.
  destruct i as [k text]. cbn [cut_tokens]. cbn [List.filter].
  unfold is_nw_tag, is_fast_tag. cbn [fst snd].
  destruct (decide (k = tag)) as [->|Hk].
  2:{ unfold kind_eqb. rewrite !bool_decide_eq_false_2 by exact Hk.
      cbn [andb negb]. intros H. left. eexists.
      split; [|split; [|exact H]].
      - reflexivity.
      - cbn [k_fasts]. lia. }
  change (kind_eqb tag tag) with true. cbn [andb negb].
  set (fasts := if str_eqb text (U "fast") then k_fasts st - 1
                else k_fasts st).
  set (new := if str_eqb text (U "nw")
              then removelast (k_new_tokens st ++ [(tag, text)])
              else k_new_tokens st ++ [(tag, text)]).
  assert (Hfasts : fasts
                   = k_fasts st - (if str_eqb text (U "fast") then 1 else 0))
    by (subst fasts; destruct (str_eqb text (U "fast")); lia).
  assert (Hnew : new
                 = k_new_tokens st
                   ++ (if negb (str_eqb text (U "nw")) then [(tag, text)]
                       else []))
    by (subst new; destruct (str_eqb text (U "nw")); cbn [negb];
        [rewrite removelast_last, app_nil_r|]; reflexivity).
  rewrite <- Hfasts, <- Hnew. clearbody fasts new.
  destruct (negb (fasts =? 0)) eqn:Hz.
  { intros H. left. eexists. split; [|split; [|exact H]]; reflexivity. }
  apply negb_false_iff, Z.eqb_eq in Hz.
  assert (Hgo : ∀ pause nwo kp pl,
    ctokens (mkCut F new fasts pause nwo kp pl) tokens = Ok st' →
    (∃ st1, k_new_tokens st1 = new ∧ k_fasts st1 = fasts
            ∧ ctokens st1 tokens = Ok st')
    ∨ (k_new_tokens st' = new ∧ fasts = 0)).
  { intros pause nwo kp pl H. left. eexists.
    split; [|split; [|exact H]]; reflexivity. }
  assert (Hstop : ∀ pause nwo kp pl,
    Ok (mkCut F new fasts pause nwo kp pl) = Ok st' →
    (∃ st1, k_new_tokens st1 = new ∧ k_fasts st1 = fasts
            ∧ ctokens st1 tokens = Ok st')
    ∨ (k_new_tokens st' = new ∧ fasts = 0)).
  { intros pause nwo kp pl [= <-]. right. split; [reflexivity|exact Hz]. }
  repeat match goal with
         | |- context [if ?b then _ else _] => destruct b
         | |- context [float_ ?x] => destruct (float_ x)
         end;
    cbn [mbind result_bind]; try discriminate;
    first [apply Hgo | apply Hstop].
Qed.

(** The second loop: what it returns is a part of the input from its
    start, the [nw] tags taken out; and when [fasts] counts the [fast] tags
    of the input, every one of them is in that part. *)
Lemma cut_tokens_spec tokens :
  ∀ st st',
    ctokens st tokens = Ok st' →
    (∃ n, k_new_tokens st'
          = k_new_tokens st
            ++ List.filter (fun tok => negb (is_nw_tag tok))
                 (take n tokens))
    ∧ (k_fasts st = Z.of_nat (length (List.filter is_fast_tag tokens)) →
       List.filter is_fast_tag (k_new_tokens st')
       = List.filter is_fast_tag (k_new_tokens st)
         ++ List.filter is_fast_tag tokens).
Proof.
  assert (Hkept : ∀ i,
    List.filter is_fast_tag
      (List.filter (fun tok => negb (is_nw_tag tok)) [i])
    = List.filter is_fast_tag [i]).
  { intros [k text]. cbn [List.filter].
    destruct (is_nw_tag (k, text)) eqn:Hnw; cbn [negb]; [|reflexivity].
    unfold is_nw_tag in Hnw. cbn [fst snd] in Hnw.
    apply andb_prop in Hnw as [_ Hnw]. apply str_eqb_true in Hnw.
    subst text. unfold is_fast_tag. cbn [fst snd].
    change (str_eqb (U "nw") (U "fast")) with false.
    rewrite andb_false_r. reflexivity. }
  induction tokens as [|i tokens IH]; intros st st' H.
  - injection H as <-. split; [exists 0%nat|intros _]; simpl;
      rewrite app_nil_r; reflexivity.
  - apply cut_tokens_step in H as [(st1 & Hn1 & Hf1 & H)|[Hn Hz]].
    + destruct (IH st1 st' H) as [[n Hn] Hf]. split.
      * exists (S n). rewrite Hn, Hn1, <- app_assoc. cbn [take].
        rewrite <- List.filter_app. reflexivity.
      * intros Hcount. rewrite Hf.
        -- rewrite Hn1, List.filter_app, Hkept, <- app_assoc,
             <- List.filter_app. reflexivity.
        -- rewrite Hf1, Hcount. cbn [List.filter].
           destruct (is_fast_tag i); simpl length; lia.
    + split; [exists 1%nat; rewrite Hn; reflexivity|].
      intros Hcount. rewrite Hn, List.filter_app, Hkept. f_equal.
      assert (Hrest : List.filter is_fast_tag tokens = []).
      { apply filter_length_nil. revert Hcount Hz. cbn [List.filter].
        destruct (is_fast_tag i); simpl length; lia. }
      cbn [List.filter]. rewrite Hrest.
      destruct (is_fast_tag i); reflexivity.
Qed.

(** X25.  The second loop of [Text.update], which cuts the text at the
    pause asked for, returns a part of the tokens from their start with the
    [nw] tags taken out. *)
Theorem update_cut_prefix (tokens : list (kind * ustring))
    (st st' : cut_state F) :
  ctokens st tokens = Ok st' →
  ∃ n, k_new_tokens st'
       = k_new_tokens st
         ++ List.filter (fun tok => negb (is_nw_tag tok)) (take n tokens).
Proof. intros H. exact (proj1 (cut_tokens_spec tokens st st' H)). Qed.

(** X26.  [Text.update] never cuts the text in front of a [fast] tag: when
    the second loop runs on the tokens and the count of [fast] tags the
    first loop left, every [fast] tag of the input is among the tokens it
    returns, whatever pause is asked for. *)
Theorem update_keeps_fast (tokens : list (kind * ustring))
    (st1 : pause_state F) (pause : Z) (nwo kp : bool) (pl : option F)
    (st2 : cut_state F) :
  ptokens (pause_init F) tokens = Ok st1 →
  ctokens (mkCut F [] (u_fasts st1) pause nwo kp pl) (u_new_tokens st1)
  = Ok st2 →
  List.filter is_fast_tag (k_new_tokens st2)
  = List.filter is_fast_tag tokens.
Proof.
  intros H1 H2.
  destruct (pause_tokens_spec tokens _ _ H1) as (_ & Hf & Hff & _).
  destruct (cut_tokens_spec _ _ _ H2) as [_ Hk].
  cbn [k_fasts k_new_tokens] in Hk. rewrite Hk.
  - simpl. rewrite Hff. reflexivity.
  - rewrite Hf, Hff. reflexivity.
Qed.
End UpdateProperties.

Lemma update_counters_witness :
  ∃ st,
    pause_tokens Z whole_float (pause_init Z)
      (text_tokenizer (U "a{w}b{p=2}c{fast}d{w=3}e{p}")) = Ok st
    ∧ u_pauses st = Z.of_nat (length (u_pause_lengths st))
    ∧ u_fasts st
      = Z.of_nat
          (length (List.filter is_fast_tag
                     (text_tokenizer (U "a{w}b{p=2}c{fast}d{w=3}e{p}")))).
Proof.
  eexists. split; [vm_compute; reflexivity|].
  apply (update_counters Z whole_float
           (text_tokenizer (U "a{w}b{p=2}c{fast}d{w=3}e{p}"))).
  vm_compute. reflexivity.
Defined.

Lemma update_tokens_witness :
  ∃ st,
    pause_tokens Z whole_float (pause_init Z)
      (text_tokenizer (U "a{p}b {p=2}c")) = Ok st
    ∧ u_new_tokens st
      = flat_map pause_rewrite (text_tokenizer (U "a{p}b {p=2}c"))
    ∧ Forall (fun tok => is_p_tag tok = false) (u_new_tokens st)
    ∧ List.filter is_text_token (u_new_tokens st)
      = List.filter is_text_token (text_tokenizer (U "a{p}b {p=2}c"))
    ∧ List.filter is_fast_tag (u_new_tokens st)
      = List.filter is_fast_tag (text_tokenizer (U "a{p}b {p=2}c")).
Proof.
  eexists. split; [vm_compute; reflexivity|].
  apply (update_tokens Z whole_float (text_tokenizer (U "a{p}b {p=2}c"))).
  vm_compute. reflexivity.
Defined.

Lemma update_cut_prefix_witness :
  ∃ st' n,
    cut_tokens Z whole_float (mkCut Z [] 0 1 false false None)
      (text_tokenizer (U "a{w}b{nw}c{w}d")) = Ok st'
    ∧ k_new_tokens st'
      = List.filter (fun tok => negb (is_nw_tag tok))
          (take n (text_tokenizer (U "a{w}b{nw}c{w}d"))).
Proof.
  assert (H : ∃ st',
    cut_tokens Z whole_float (mkCut Z [] 0 1 false false None)
      (text_tokenizer (U "a{w}b{nw}c{w}d")) = Ok st')
    by (eexists; vm_compute; reflexivity).
  destruct H as [st' H].
  destruct (update_cut_prefix Z whole_float _ _ _ H) as [n Hn].
  exists st', n. split; [exact H|exact Hn].
Defined.

Lemma update_keeps_fast_witness :
  ∃ st1 st2,
    pause_tokens Z whole_float (pause_init Z)
      (text_tokenizer (U "a{w}b{fast}c{w}d")) = Ok st1
    ∧ cut_tokens Z whole_float (mkCut Z [] (u_fasts st1) 0 false false None)
        (u_new_tokens st1) = Ok st2
    ∧ List.filter is_fast_tag (k_new_tokens st2)
      = List.filter is_fast_tag (text_tokenizer (U "a{w}b{fast}c{w}d")).
Proof.
  eexists. eexists. split; [vm_compute; reflexivity|].
  split; [vm_compute; reflexivity|].
  eapply (update_keeps_fast Z whole_float
            (text_tokenizer (U "a{w}b{fast}c{w}d")))
    with (pause := 0) (nwo := false) (kp := false) (pl := None);
    vm_compute; reflexivity.
Defined.

(** ** [Text.get_simple_length] *)

(** X27.  [get_simple_length] counts from the last [fast] tag on: the
    token lists and the tokens in front of a [fast] tag do not count. *)
Theorem get_simple_length_fast
    (before : list (list (kind * ustring)))
    (a b : list (kind * ustring))
    (after : list (list (kind * ustring))) :
  get_simple_length (before ++ (a ++ (tag, U "fast") :: b) :: after)
  = get_simple_length (b :: after).
Proof.
  unfold get_simple_length. rewrite fold_left_app. cbn [fold_left].
  rewrite fold_left_app. cbn [fold_left simple_length_token].
  change (str_eqb (U "fast") (U "fast")) with true. reflexivity.
Qed.

Lemma simple_length_text toks :
  ∀ rv,
    Forall (fun tok => tok.1 ≠ tag ∧ tok.1 ≠ start) toks →
    fold_left simple_length_token toks rv
    = rv + Z.of_nat (length (payloads toks)).
Proof.
  induction toks as [|[k t] toks IH]; intros rv H.
  - simpl. lia.
  - inversion H as [|? ? [Ht Hs] Hrest]; subst. cbn [fst] in Ht, Hs.
    cbn [fold_left]. rewrite (IH _ Hrest). unfold payloads.
    cbn [map concat snd]. rewrite length_app.
    destruct k; cbn [simple_length_token]; try congruence; lia.
Qed.

Lemma western_match_no_brace_kind c s g t r :
  c ≠ c_lbrace →
  western_match (c :: s) = Some (g, t, r) →
  (token_of_match (g, t)).1 ≠ tag ∧ (token_of_match (g, t)).1 ≠ start.
Proof.
  intros Hc. unfold western_match.
  assert (Hlb : (c =? c_lbrace)%N = false) by (apply N.eqb_neq; exact Hc).
  replace (match_tag (c :: s)) with (@None (ustring * ustring))
    by (unfold match_tag; rewrite Hlb; reflexivity).
  destruct (match_space (c :: s)) as [[? ?]|];
    [intros [= <- <- <-]; split; discriminate|].
  destruct (match_untag (c :: s)) as [[? ?]|];
    [intros [= <- <- <-]; split; discriminate|].
  destruct (match_newline (c :: s)) as [[? ?]|];
    [intros [= <- <- <-]; split; discriminate|].
  destruct (match_word (c :: s)) as [[? ?]|];
    [intros [= <- <- <-]; split; discriminate|discriminate].
Qed.

Lemma finditer_no_brace_kinds fuel s :
  (length s <= fuel)%nat → c_lbrace ∉ s →
  Forall (fun tok => tok.1 ≠ tag ∧ tok.1 ≠ start)
    (map token_of_match (finditer fuel s)).
Proof.
  revert s. induction fuel as [|fuel IH]; intros s Hlen Hs; [constructor|].
  destruct s as [|c s]; [constructor|].
  assert (Hc : c ≠ c_lbrace) by (intros ->; apply Hs; left).
  destruct (western_match_no_brace c s Hc)
    as (g & t & r & Hm & _ & Hr & Hsub).
  cbn [finditer]. rewrite Hm. cbn [map]. constructor.
  - exact (western_match_no_brace_kind c s g t r Hc Hm).
  - apply IH; [simpl in Hlen; lia|].
    intros Hin. apply Hs. right. apply Hsub. exact Hin.
Qed.

(** X28.  For a text without a left brace, tokenized as one token list,
    [get_simple_length] is the number of characters of the text. *)
Theorem get_simple_length_plain s :
  c_lbrace ∉ s →
  get_simple_length [text_tokenizer s] = Z.of_nat (length s).
Proof.
  intros Hs. unfold get_simple_length. cbn [fold_left].
  unfold text_tokenizer.
  rewrite simple_length_text
    by (apply finditer_no_brace_kinds; [lia|exact Hs]).
  rewrite finditer_no_brace by (lia || exact Hs). reflexivity.
Qed.

Lemma get_simple_length_plain_witness :
  get_simple_length [text_tokenizer (U "two words")] = 9.
Proof.
  apply (get_simple_length_plain (U "two words")). vm_compute.
  intros H. repeat (apply elem_of_cons in H as [H|H]; [discriminate H|]).
  apply elem_of_nil in H. exact H.
Defined.
